(** * The value algebra of akkadian's rules DSL ([Engine/dsl/T.py])

    A [T] object wraps a payload (a scalar, the stub marker or a time series)
    together with a certainty factor.  The module combines such objects with
    arithmetic, comparison and three-valued logic.  This file embeds the
    functions of [T.py] and proves the properties its specification states
    about them.

    Conventions of the embedding.
    - Python scalars are the values of [scalar].  [int] and [float] are kept
      apart ([SInt], [SFloat]) because the code tests identity with the
      literal [0]; a float payload is the rational it denotes ([Qc]), so
      NaN and the infinities are not among the values, and the properties
      that would depend on them leave floats out.
    - A certainty factor is whatever number the caller passes; [T.py] only
      multiplies, adds and subtracts it.  It is an exact rational in [T],
      where a result's certainty factor is stated by the code's own
      expression, operation for operation; [T64] carries it as a binary64
      float, for the properties that depend on rounding.
    - The payload of a [T] is a scalar or a time series, never another [T].
    - The [traces] library is not part of the repository: its time series
      type and the behaviour of its objects are the fields of the class
      [Traces], and every definition is parametric in them.
    - A Python exception is the [Raise] case of [result]; it propagates
      through [bind], as no function of [T.py] catches anything. *)

From Stdlib Require Import ZArith QArith Qcanon String List Bool.
From Stdlib Require Import Permutation Floats.
Import ListNotations.

Set Implicit Arguments.

(** ** Exceptions *)

Inductive exn : Type :=
| TypeError
| AttributeError
| RecursionError
| LibraryError (name : string).

Inductive result (A : Type) : Type :=
| Ok (a : A)
| Raise (e : exn).

Arguments Ok {A} a.
Arguments Raise {A} e.

Definition bind {A B : Type} (m : result A) (k : A -> result B) : result B :=
  match m with
  | Ok a => k a
  | Raise e => Raise e
  end.

Declare Scope py_scope.
Delimit Scope py_scope with py.
Notation "x <- m ;; k" := (bind m (fun x => k))
  (at level 61, m at next level, right associativity) : py_scope.
Open Scope py_scope.

(** Python's [x or y] on two tests: [y] is evaluated only when [x] is false. *)
Definition or_else (x : result bool) (y : result bool) : result bool :=
  b <- x ;; if b then Ok true else y.

(** ** Python values *)

Inductive scalar : Type :=
| SNone
| SBool (b : bool)
| SInt (z : Z)
| SFloat (q : Qc)
| SStr (s : string).

Section Values.

Variable TimeSeries : Type.

Inductive payload : Type :=
| PScalar (s : scalar)
| PSeries (series : TimeSeries).

(** [class T]: [T(value, cf)].  The attribute [ts] is set once by
    [__init__] from the type of [value]; it is the function [ts] below. *)
Record T : Type := mkT { value : payload; cf : Qc }.

(** Any object a function of [T.py] may be handed: a [T], or a bare value
    ([type(a) is T] is the match on this type). *)
Inductive operand : Type :=
| Bare (v : payload)
| Obj (t : T).

(** What a rule passes to an operator or a combinator: a bare scalar or a
    [T] (a time series is always wrapped, by [TS]). *)
Inductive arg : Type :=
| Scalar (s : scalar)
| Wrapped (t : T).

Definition arg_operand (x : arg) : operand :=
  match x with
  | Scalar s => Bare (PScalar s)
  | Wrapped t => Obj t
  end.

End Values.

Arguments PScalar {TimeSeries} s.
Arguments PSeries {TimeSeries} series.
Arguments Bare {TimeSeries} v.
Arguments Obj {TimeSeries} t.
Arguments Scalar {TimeSeries} s.
Arguments Wrapped {TimeSeries} t.

Coercion arg_operand : arg >-> operand.

(** ** The [traces] library, as far as [T.py] relies on it *)

Class Traces (TimeSeries : Type) : Type := {
  (** [ts == other] and, reflected, [other == ts]. *)
  series_eq : TimeSeries -> payload TimeSeries -> result (payload TimeSeries);
  (** [bool(ts)]. *)
  series_bool : TimeSeries -> result bool;
  (** [x * y] when one of the two is a time series. *)
  series_mul : payload TimeSeries -> payload TimeSeries
               -> result (payload TimeSeries);
  (** [ts.operation(other, g)]: [g] is called on stored values, which it
      receives bare, and what it returns is stored in the new series. *)
  operation : TimeSeries -> payload TimeSeries
              -> (payload TimeSeries -> payload TimeSeries
                  -> result (operand TimeSeries))
              -> result TimeSeries
}.

(** The scalar fragment: a library without any time series value. *)
#[export] Instance scalars_only : Traces Empty_set := {
  series_eq := fun s _ => match s with end;
  series_bool := fun s => match s with end;
  series_mul := fun x y => Raise TypeError;
  operation := fun s _ _ => match s with end
}.

(** ** Python's built-in operations on the modelled values *)

(** [int(b)]: a [bool] is an [int] in arithmetic and comparison. *)
Definition int_of_bool (b : bool) : Z := if b then 1%Z else 0%Z.

Definition as_number (s : scalar) : option Qc :=
match s with
| SBool b => Some (Q2Qc (inject_Z (int_of_bool b)))
| SInt z => Some (Q2Qc (inject_Z z))
| SFloat q => Some q
| SNone | SStr _ => None
end.

(** [x == y] on scalars: numbers compare by value across [bool], [int] and
  [float]; strings by content; [None] equals only [None]. *)
Definition scalar_eqb (x y : scalar) : bool :=
match x, y with
| SNone, SNone => true
| SStr s, SStr s' => String.eqb s s'
| _, _ =>
    match as_number x, as_number y with
    | Some p, Some q => Qc_eq_bool p q
    | _, _ => false
    end
end.

(** [bool(x)] on scalars. *)
Definition scalar_bool (s : scalar) : bool :=
match s with
| SNone => false
| SBool b => b
| SInt z => negb (Z.eqb z 0)
| SFloat q => negb (Qc_eq_bool q 0)
| SStr s => negb (String.eqb s EmptyString)
end.

(** [s * n] on a string: [n] copies, none when [n <= 0]. *)
Fixpoint str_repeat (s : string) (n : nat) : string :=
match n with
| O => EmptyString
| S n' => String.append s (str_repeat s n')
end.

(** [x * y] on scalars. *)
Definition scalar_mul (x y : scalar) : result scalar :=
match x, y with
| SNone, _ | _, SNone => Raise TypeError
| SStr s, SInt n | SInt n, SStr s => Ok (SStr (str_repeat s (Z.to_nat n)))
| SStr s, SBool b | SBool b, SStr s =>
    Ok (SStr (str_repeat s (Z.to_nat (int_of_bool b))))
| SStr _, _ | _, SStr _ => Raise TypeError
| SFloat p, _ | _, SFloat p =>
    match as_number x, as_number y with
    | Some a, Some b => Ok (SFloat (a * b)%Qc)
    | _, _ => Raise TypeError
    end
| SBool a, SBool b => Ok (SInt (int_of_bool a * int_of_bool b))
| SBool a, SInt b => Ok (SInt (int_of_bool a * b))
| SInt a, SBool b => Ok (SInt (a * int_of_bool b))
| SInt a, SInt b => Ok (SInt (a * b))
end.

Section Algebra.

Context {TimeSeries : Type} {lib : Traces TimeSeries}.

#[local] Abbreviation payload := (payload TimeSeries).
#[local] Abbreviation T := (T TimeSeries).
#[local] Abbreviation operand := (operand TimeSeries).
#[local] Abbreviation arg := (arg TimeSeries).

(** [operator.eq]. *)
Definition operator_eq (x y : payload) : result payload :=
  match x, y with
  | PScalar a, PScalar b => Ok (PScalar (SBool (scalar_eqb a b)))
  | PSeries s, _ => series_eq s y
  | PScalar _, PSeries s => series_eq s x
  end.

(** [operator.mul]. *)
Definition operator_mul (x y : payload) : result payload :=
  match x, y with
  | PScalar a, PScalar b => r <- scalar_mul a b ;; Ok (PScalar r)
  | _, _ => series_mul x y
  end.

(** The truth value of [x], as [if x], [not x] and [x or y] take it. *)
Definition truth (x : payload) : result bool :=
  match x with
  | PScalar s => Ok (scalar_bool s)
  | PSeries s => series_bool s
  end.

(** [x is None], [x is False], [x is True], [x is 0]: identity with the
    singleton ([0] is the cached small [int], which [0.0] and [False] are
    not). *)
Definition is_None (x : payload) : bool :=
  match x with PScalar SNone => true | _ => false end.

Definition is_False (x : payload) : bool :=
  match x with PScalar (SBool false) => true | _ => false end.

Definition is_True (x : payload) : bool :=
  match x with PScalar (SBool true) => true | _ => false end.

Definition is_0 (x : payload) : bool :=
  match x with PScalar (SInt 0) => true | _ => false end.

(** ** [T.py]: temporal substrate *)

Definition is_timeseries (a : payload) : bool :=
  match a with PSeries _ => true | PScalar _ => false end.

(** The attribute [ts] of a [T], as [__init__] sets it. *)
Definition ts (t : T) : bool := is_timeseries (value t).

(** [ts1.operation(ts2, lambda x, y: f(x, y))]; a scalar [ts1] has no
    attribute [operation]. *)
Definition apply_binary_ts_fcn (f : payload -> payload -> result payload)
    (ts1 ts2 : payload) : result payload :=
  match ts1 with
  | PSeries s =>
      r <- operation s ts2 (fun x y => v <- f x y ;; Ok (Bare v)) ;;
      Ok (PSeries r)
  | PScalar _ => Raise AttributeError
  end.

(** [ts.operation(ts, lambda x, y: f(x))]. *)
Definition apply_unary_ts_fcn (f : operand -> result operand)
    (ts : payload) : result payload :=
  match ts with
  | PSeries s =>
      r <- operation s ts (fun x y => f (Bare x)) ;;
      Ok (PSeries r)
  | PScalar _ => Raise AttributeError
  end.

(** ** [T.py]: accessors *)

Definition cf_conj (a b : Qc) : Qc := (a * b)%Qc.

Definition cf_disj (a b : Qc) : Qc := (a + b - a * b)%Qc.

Definition get_cf (a : operand) : Qc :=
  match a with
  | Obj t => cf t
  | Bare _ => 1%Qc
  end.

Definition get_val (a : operand) : payload :=
  match a with
  | Obj t => value t
  | Bare v => v
  end.

Definition is_ts_T (a : operand) : bool :=
  match a with
  | Obj t => ts t
  | Bare _ => false
  end.

Definition is_none (a : operand) : bool :=
  match a with
  | Obj t => is_None (value t)
  | Bare _ => false
  end.

(** ** [T.py]: stubs *)

Definition StubVal : payload := PScalar (SStr "#stub#").

Definition Stub (cf : Qc) : T := mkT StubVal cf.

(** [not is_ts_T(a) and get_val(a) == StubVal], read as a test. *)
Definition is_stub (a : operand) : result bool :=
  if negb (is_ts_T a)
  then r <- operator_eq (get_val a) StubVal ;; truth r
  else Ok false.

(** ** [T.py]: arithmetic and comparison *)

Definition process_binary (f : payload -> payload -> result payload)
    (a b : operand) : result T :=
  let cf := cf_conj (get_cf a) (get_cf b) in
  stub <- or_else (is_stub a) (is_stub b) ;;
  if stub then Ok (Stub cf)
  else if is_none a || is_none b then Ok (mkT (PScalar SNone) cf)
  else if is_ts_T a || is_ts_T b then
    v <- apply_binary_ts_fcn f (get_val a) (get_val b) ;; Ok (mkT v cf)
  else
    v <- f (get_val a) (get_val b) ;; Ok (mkT v cf).

Definition process_binary_mult (a b : operand) : result T :=
  let cf := cf_conj (get_cf a) (get_cf b) in
  if is_0 (get_val a) || is_0 (get_val b) then Ok (mkT (PScalar (SInt 0)) cf)
  else
    stub <- or_else (is_stub a) (is_stub b) ;;
    if stub then Ok (Stub cf)
    else if is_none a || is_none b then Ok (mkT (PScalar SNone) cf)
    else if is_ts_T a || is_ts_T b then
      v <- apply_binary_ts_fcn operator_mul (get_val a) (get_val b) ;;
      Ok (mkT v cf)
    else
      v <- operator_mul (get_val a) (get_val b) ;; Ok (mkT v cf).

(** Methods of [T]: [__mul__], [__eq__], [__invert__] ([~]) and [__ne__]. *)
Definition T_mul (self : T) (o : operand) : result T :=
  process_binary_mult (Obj self) o.

Definition T_eq (self : T) (o : operand) : result T :=
  process_binary operator_eq (Obj self) o.

Definition T_invert (self : T) : result T :=
  if is_None (value self) then Ok (mkT (PScalar SNone) 1%Qc)
  else b <- truth (value self) ;; Ok (mkT (PScalar (SBool (negb b))) (cf self)).

Definition T_ne (self : T) (o : operand) : result T :=
  e <- T_eq self o ;; T_invert e.

(** ** [T.py]: logic *)

Definition more_internal_and (a b : payload) (cf : Qc) : result T :=
  if is_False a || is_False b then Ok (mkT (PScalar (SBool false)) cf)
  else if is_None a || is_None b then Ok (mkT (PScalar SNone) cf)
  else
    stub <- or_else (is_stub (Bare a)) (is_stub (Bare b)) ;;
    if stub then Ok (Stub cf)
    else Ok (mkT (PScalar (SBool true)) cf).

Definition internal_and (a b : operand) : result T :=
  more_internal_and (get_val a) (get_val b) (get_cf a * get_cf b)%Qc.

Definition more_internal_or (a b : payload) (cf : Qc) : result T :=
  if is_True a || is_True b then Ok (mkT (PScalar (SBool true)) cf)
  else if is_None a || is_None b then Ok (mkT (PScalar SNone) cf)
  else
    stub <- or_else (is_stub (Bare a)) (is_stub (Bare b)) ;;
    if stub then Ok (Stub cf)
    else Ok (mkT (PScalar (SBool false)) cf).

Definition internal_or (a b : operand) : result T :=
  let cfa := get_cf a in
  let cfb := get_cf b in
  more_internal_or (get_val a) (get_val b) (cfa + cfb - cfa * cfb)%Qc.

(** [functools.reduce(f, args)] without an initial value: an empty sequence
    is a [TypeError], a single argument is returned as it is. *)
Definition reduce (f : operand -> operand -> result T) (args : list operand)
    : result operand :=
  match args with
  | [] => Raise TypeError
  | x :: rest =>
      fold_left (fun acc y => a <- acc ;; r <- f a y ;; Ok (Obj r)) rest (Ok x)
  end.

Definition And (args : list operand) : result operand :=
  reduce internal_and args.

Definition Or (args : list operand) : result operand :=
  reduce internal_or args.

(** [Not] calls itself through [operation] on the values of a series.  The
    first argument bounds the depth of these calls, as the interpreter's
    recursion limit does; outside the time-series branch one level is
    enough. *)
Fixpoint Not (depth : nat) (a : operand) : result operand :=
  match depth with
  | O => Raise RecursionError
  | S depth' =>
      skip <- or_else (Ok (is_none a)) (is_stub a) ;;
      if skip then Ok a
      else if is_ts_T a then
        (* [a.value]: [a] is a [T] in this branch *)
        v <- apply_unary_ts_fcn (Not depth') (get_val a) ;;
        Ok (Obj (mkT v (get_cf a)))
      else
        b <- truth (get_val a) ;;
        Ok (Obj (mkT (PScalar (SBool (negb b))) (get_cf a)))
  end.

(** ** [T.py]: conditionals *)

Definition If (a b c : operand) : result operand :=
  skip <- or_else (Ok (is_none a)) (is_stub a) ;;
  if skip then Ok a
  else
    cond <- truth (get_val a) ;;
    if cond then
      match b with
      | Obj _ => Ok b
      | Bare v => Ok (Obj (mkT v 1%Qc))
      end
    else
      match c with
      | Obj _ => Ok c
      | Bare v => Ok (Obj (mkT v 1%Qc))
      end.

End Algebra.

(** ** The specification's reading of the logic combinators

    The four logic values of the specification and the precedence tables it
    gives for AND and OR, written from its words; the theorems below compare
    them with [internal_and] and [internal_or]. *)

Inductive LogicValue : Type := LTrue | LFalse | LUnset | LStub.

Definition logic_payload {TimeSeries : Type} (x : LogicValue)
    : payload TimeSeries :=
  match x with
  | LTrue => PScalar (SBool true)
  | LFalse => PScalar (SBool false)
  | LUnset => PScalar SNone
  | LStub => PScalar (SStr "#stub#")
  end.

Definition spec_and (x y : LogicValue) : LogicValue :=
  match x, y with
  | LFalse, _ | _, LFalse => LFalse
  | LUnset, _ | _, LUnset => LUnset
  | LStub, _ | _, LStub => LStub
  | LTrue, LTrue => LTrue
  end.

Definition spec_or (x y : LogicValue) : LogicValue :=
  match x, y with
  | LTrue, _ | _, LTrue => LTrue
  | LUnset, _ | _, LUnset => LUnset
  | LStub, _ | _, LStub => LStub
  | LFalse, LFalse => LFalse
  end.

(** The payload is the stub marker, decided on the constructors. *)
Definition stub_marked {TimeSeries : Type} (v : payload TimeSeries) : bool :=
  match v with
  | PScalar (SStr s) => String.eqb s "#stub#"
  | _ => false
  end.


(** ** The other operators of [T]

    [+], [-] and the order comparisons on scalars.  [/] is left out. *)

Inductive binop : Type := Add | Sub | Lt | Le | Gt | Ge.

(** A [bool] or an [int], as an integer. *)
Definition as_int (s : scalar) : option Z :=
  match s with
  | SBool b => Some (int_of_bool b)
  | SInt z => Some z
  | SNone | SFloat _ | SStr _ => None
  end.

(** [x + y]: integers add to an integer, a float makes a float, strings
    concatenate. *)
Definition scalar_add (x y : scalar) : result scalar :=
  match x, y with
  | SStr s, SStr s' => Ok (SStr (String.append s s'))
  | _, _ =>
      match as_int x, as_int y with
      | Some a, Some b => Ok (SInt (a + b))
      | _, _ =>
          match as_number x, as_number y with
          | Some a, Some b => Ok (SFloat (a + b)%Qc)
          | _, _ => Raise TypeError
          end
      end
  end.

(** [x - y]: numbers only. *)
Definition scalar_sub (x y : scalar) : result scalar :=
  match as_int x, as_int y with
  | Some a, Some b => Ok (SInt (a - b))
  | _, _ =>
      match as_number x, as_number y with
      | Some a, Some b => Ok (SFloat (a - b)%Qc)
      | _, _ => Raise TypeError
      end
  end.

(** The order of two scalars: numbers by value, strings by code point;
    nothing else is ordered. *)
Definition scalar_compare (x y : scalar) : option comparison :=
  match x, y with
  | SStr s, SStr s' => Some (String.compare s s')
  | _, _ =>
      match as_number x, as_number y with
      | Some a, Some b => Some (a ?= b)%Qc
      | _, _ => None
      end
  end.

Definition holds (op : binop) (c : comparison) : bool :=
  match op, c with
  | Lt, Datatypes.Lt | Le, Datatypes.Lt | Le, Eq
  | Gt, Datatypes.Gt | Ge, Datatypes.Gt | Ge, Eq => true
  | _, _ => false
  end.

Definition scalar_binop (op : binop) (x y : scalar) : result scalar :=
  match op with
  | Add => scalar_add x y
  | Sub => scalar_sub x y
  | Lt | Le | Gt | Ge =>
      match scalar_compare x y with
      | Some c => Ok (SBool (holds op c))
      | None => Raise TypeError
      end
  end.

(** What the library does for [x op y] when one of the two is a time
    series. *)
Class TracesOperators (TimeSeries : Type) : Type := {
  series_binop : binop -> payload TimeSeries -> payload TimeSeries
                 -> result (payload TimeSeries)
}.

#[export] Instance scalars_only_operators : TracesOperators Empty_set := {
  series_binop := fun _ _ _ => Raise TypeError
}.

(** A library with a single, opaque series value: enough to reach the
    time-series branches. *)
#[export] Instance one_series : Traces unit := {
  series_eq := fun _ _ => Raise AttributeError;
  series_bool := fun _ => Ok true;
  series_mul := fun _ _ => Raise TypeError;
  operation := fun _ _ _ => Ok tt
}.

#[export] Instance one_series_operators : TracesOperators unit := {
  series_binop := fun _ _ _ => Raise TypeError
}.

Section Operators.

Context {TimeSeries : Type} {lib : Traces TimeSeries}
        {ops : TracesOperators TimeSeries}.

#[local] Abbreviation payload := (payload TimeSeries).
#[local] Abbreviation T := (T TimeSeries).
#[local] Abbreviation operand := (operand TimeSeries).

(** [operator.add], [operator.sub], [operator.lt], [operator.le],
    [operator.gt], [operator.ge]. *)
Definition operator (op : binop) (x y : payload) : result payload :=
  match x, y with
  | PScalar a, PScalar b => r <- scalar_binop op a b ;; Ok (PScalar r)
  | _, _ => series_binop op x y
  end.

(** [class T], the remaining methods. *)
Definition T_and (self : T) (o : operand) : result T :=
  internal_and (Obj self) o.

Definition T_rand (self : T) (o : operand) : result T :=
  internal_and (Obj self) o.

Definition T_or (self : T) (o : operand) : result T :=
  internal_or (Obj self) o.

Definition T_ror (self : T) (o : operand) : result T :=
  internal_or (Obj self) o.

Definition T_add (self : T) (o : operand) : result T :=
  process_binary (operator Add) (Obj self) o.

Definition T_radd (self : T) (o : operand) : result T :=
  process_binary (operator Add) (Obj self) o.

Definition T_rmul (self : T) (o : operand) : result T :=
  process_binary_mult (Obj self) o.

Definition T_sub (self : T) (o : operand) : result T :=
  process_binary (operator Sub) (Obj self) o.

Definition T_rsub (self : T) (o : operand) : result T :=
  process_binary (operator Sub) o (Obj self).

Definition T_lt (self : T) (o : operand) : result T :=
  process_binary (operator Lt) (Obj self) o.

Definition T_le (self : T) (o : operand) : result T :=
  process_binary (operator Le) (Obj self) o.

Definition T_gt (self : T) (o : operand) : result T :=
  process_binary (operator Gt) (Obj self) o.

Definition T_rgt (self : T) (o : operand) : result T :=
  process_binary (operator Gt) o (Obj self).

Definition T_ge (self : T) (o : operand) : result T :=
  process_binary (operator Ge) (Obj self) o.

Definition T_rge (self : T) (o : operand) : result T :=
  process_binary (operator Ge) o (Obj self).

(** How the interpreter evaluates [x op y] when each of [x] and [y] is a bare
    scalar or a [T]: the method of [x] when [x] is a [T]; otherwise, a scalar
    not knowing [T], the reflected method of [y] when [y] is a [T]; otherwise
    the operator on the two scalars. *)
Definition dispatch (method reflected : T -> operand -> result T)
    (native : payload -> payload -> result payload) (x y : arg TimeSeries)
    : result operand :=
  match x, y with
  | Wrapped t, _ => r <- method t y ;; Ok (Obj r)
  | Scalar _, Wrapped t => r <- reflected t x ;; Ok (Obj r)
  | Scalar u, Scalar v => r <- native (PScalar u) (PScalar v) ;; Ok (Bare r)
  end.

Definition py_add : arg TimeSeries -> arg TimeSeries -> result operand :=
  dispatch T_add T_radd (operator Add).

Definition py_sub : arg TimeSeries -> arg TimeSeries -> result operand :=
  dispatch T_sub T_rsub (operator Sub).

Definition py_mul : arg TimeSeries -> arg TimeSeries -> result operand :=
  dispatch T_mul T_rmul operator_mul.

(** The reflection of [<] is [>], that of [<=] is [>=], and back; [==] is
    its own. *)
Definition py_lt : arg TimeSeries -> arg TimeSeries -> result operand :=
  dispatch T_lt T_gt (operator Lt).

Definition py_le : arg TimeSeries -> arg TimeSeries -> result operand :=
  dispatch T_le T_ge (operator Le).

Definition py_gt : arg TimeSeries -> arg TimeSeries -> result operand :=
  dispatch T_gt T_lt (operator Gt).

Definition py_ge : arg TimeSeries -> arg TimeSeries -> result operand :=
  dispatch T_ge T_le (operator Ge).

Definition py_eq : arg TimeSeries -> arg TimeSeries -> result operand :=
  dispatch T_eq T_eq operator_eq.

(** ** [rules/sandbox.py]

    The fact accessor [In] is not in the repository: it is the variable
    [In_], which returns a bare scalar or a [T], or raises.  A person is
    named by a string. *)

Variable In_ : string -> string -> option string -> option string -> string
               -> result (arg TimeSeries).

Definition age (p : string) : result (arg TimeSeries) :=
  In_ "num" "age" (Some p) None "How old is {0}?".

Definition gender (p : string) : result (arg TimeSeries) :=
  In_ "str" "gender" (Some p) None "What is {0}'s gender?".

Definition relationship (a b : string) : result (arg TimeSeries) :=
  In_ "str" "relationship" (Some a) (Some b) "How is {0} related to {1}?".

Definition assessment_date : result (arg TimeSeries) :=
  In_ "date" "assessment_date" None None "What is the assessment date?".

(** The arguments of [And] are evaluated from left to right, all of them,
    before [And] is called. *)
Definition is_qualifying_relative (depth : nat) (a b : string)
    : result operand :=
  age_a <- age a ;;
  x1 <- py_lt age_a (Scalar (SInt 18)) ;;
  age_b <- age b ;;
  x2 <- py_ge age_b (Scalar (SInt 18)) ;;
  gender_b <- gender b ;;
  x3 <- py_eq gender_b (Scalar (SStr "Female")) ;;
  rel <- relationship a b ;;
  child <- py_eq rel (Scalar (SStr "Child")) ;;
  x4 <- Not depth child ;;
  date <- assessment_date ;;
  x5 <- py_gt date (Scalar (SStr "2001-01-01")) ;;
  And [x1; x2; x3; x4; x5].

End Operators.

(** ** Reading aids for the properties of the logic combinators *)

(** What [And] makes of a scalar payload: [False], [None] and the stub marker
    are themselves, everything else counts as [True]. *)
Definition and_class (s : scalar) : LogicValue :=
  match s with
  | SBool false => LFalse
  | SNone => LUnset
  | SStr x => if String.eqb x "#stub#" then LStub else LTrue
  | _ => LTrue
  end.

(** What [Or] makes of a scalar payload: [True], [None] and the stub marker
    are themselves, everything else counts as [False]. *)
Definition or_class (s : scalar) : LogicValue :=
  match s with
  | SBool true => LTrue
  | SNone => LUnset
  | SStr x => if String.eqb x "#stub#" then LStub else LFalse
  | _ => LFalse
  end.

(** Negation of a logic value as [Not] performs it. *)
Definition spec_not (x : LogicValue) : LogicValue :=
  match x with
  | LTrue => LFalse
  | LFalse => LTrue
  | LUnset => LUnset
  | LStub => LStub
  end.

(** The scalar payload of an operand that holds no time series; the classes
    of an operand ([T.py] alone does not say what the combinators make of a
    time series, and the properties below leave it out). *)
Definition scalar_of {TimeSeries : Type} (a : operand TimeSeries)
    : option scalar :=
  match a with
  | Bare (PScalar s) | Obj {| value := PScalar s |} => Some s
  | _ => None
  end.

Definition and_class_of {TimeSeries : Type} (a : operand TimeSeries)
    : LogicValue :=
  match scalar_of a with
  | Some s => and_class s
  | None => LTrue
  end.

Definition or_class_of {TimeSeries : Type} (a : operand TimeSeries)
    : LogicValue :=
  match scalar_of a with
  | Some s => or_class s
  | None => LFalse
  end.

(** The operand holds no time series. *)
Definition no_series {TimeSeries : Type} (a : operand TimeSeries) : Prop :=
  is_timeseries (get_val a) = false.

Definition cfs_of {TimeSeries : Type} (args : list (operand TimeSeries))
    : list Qc :=
  map get_cf args.

(** The conjunction and the disjunction table over a sequence. *)
Definition all_and (l : list LogicValue) : LogicValue :=
  fold_right spec_and LTrue l.

Definition all_or (l : list LogicValue) : LogicValue :=
  fold_right spec_or LFalse l.

(** Two outcomes with the same payload, or the same exception. *)
Definition same_payload {TimeSeries : Type}
    (x y : result (operand TimeSeries)) : Prop :=
  match x, y with
  | Ok r, Ok r' => get_val r = get_val r'
  | Raise e, Raise e' => e = e'
  | _, _ => False
  end.

(** A fact as the interview holds it: answered, still to be asked, or not
    applicable. *)
Inductive fact (A : Type) : Type :=
| Known (a : A)
| Pending
| NotApplicable.

Arguments Known {A} a.
Arguments Pending {A}.
Arguments NotApplicable {A}.

Definition fact_payload {A TimeSeries : Type} (inj : A -> scalar)
    (f : fact A) : payload TimeSeries :=
  match f with
  | Known a => PScalar (inj a)
  | Pending => PScalar (SStr "#stub#")
  | NotApplicable => PScalar SNone
  end.

Definition fact_test {A : Type} (test : A -> bool) (f : fact A)
    : LogicValue :=
  match f with
  | Known a => if test a then LTrue else LFalse
  | Pending => LStub
  | NotApplicable => LUnset
  end.

(** ** Sample values for the closed instances *)

Definition half : Qc := Q2Qc (1 # 2).
Definition third : Qc := Q2Qc (1 # 3).
Definition fifth : Qc := Q2Qc (1 # 5).

(** [T(s, c)] and [Stub(c)] where there is no time series. *)
Definition wrap (s : scalar) (c : Qc) : T Empty_set := mkT (PScalar s) c.

Definition stub (c : Qc) : T Empty_set := Stub c.

(** A string fact that is not an answer equal to the stub marker. *)
Definition proper (f : fact string) : Prop := f <> Known "#stub#"%string.

(** ** Certainty factors as binary64 floats

    The logic combinators once more, with the certainty factor as Python
    computes it when the caller passes floats: a binary64 number, with [*],
    [+] and [-] the IEEE 754 operations.  The default certainty factor, the
    int [1], is the float [1] here, to which a product or a sum with a float
    converts it exactly.  Payloads and the stub test are as before. *)

Section Values64.

Variable TimeSeries : Type.

Record T64 : Type := mkT64 { value64 : payload TimeSeries; cf64 : float }.

Inductive operand64 : Type :=
| Bare64 (v : payload TimeSeries)
| Obj64 (t : T64).

End Values64.

Arguments Bare64 {TimeSeries} v.
Arguments Obj64 {TimeSeries} t.

Section Binary64.

Context {TimeSeries : Type} {lib : Traces TimeSeries}.

Definition cf_conj64 (a b : float) : float := (a * b)%float.

Definition cf_disj64 (a b : float) : float := (a + b - a * b)%float.

Definition get_cf64 (a : operand64 TimeSeries) : float :=
  match a with
  | Obj64 t => cf64 t
  | Bare64 _ => 1%float
  end.

Definition get_val64 (a : operand64 TimeSeries) : payload TimeSeries :=
  match a with
  | Obj64 t => value64 t
  | Bare64 v => v
  end.

Definition Stub64 (cf : float) : T64 TimeSeries := mkT64 StubVal cf.

Definition more_internal_and64 (a b : payload TimeSeries) (cf : float)
    : result (T64 TimeSeries) :=
  if is_False a || is_False b then Ok (mkT64 (PScalar (SBool false)) cf)
  else if is_None a || is_None b then Ok (mkT64 (PScalar SNone) cf)
  else
    stub <- or_else (is_stub (Bare a)) (is_stub (Bare b)) ;;
    if stub then Ok (Stub64 cf)
    else Ok (mkT64 (PScalar (SBool true)) cf).

Definition internal_and64 (a b : operand64 TimeSeries)
    : result (T64 TimeSeries) :=
  more_internal_and64 (get_val64 a) (get_val64 b)
    (get_cf64 a * get_cf64 b)%float.

Definition more_internal_or64 (a b : payload TimeSeries) (cf : float)
    : result (T64 TimeSeries) :=
  if is_True a || is_True b then Ok (mkT64 (PScalar (SBool true)) cf)
  else if is_None a || is_None b then Ok (mkT64 (PScalar SNone) cf)
  else
    stub <- or_else (is_stub (Bare a)) (is_stub (Bare b)) ;;
    if stub then Ok (Stub64 cf)
    else Ok (mkT64 (PScalar (SBool false)) cf).

Definition internal_or64 (a b : operand64 TimeSeries)
    : result (T64 TimeSeries) :=
  let cfa := get_cf64 a in
  let cfb := get_cf64 b in
  more_internal_or64 (get_val64 a) (get_val64 b)
    (cfa + cfb - cfa * cfb)%float.

End Binary64.

(** The floats Python reads from [0.1], [0.2], [0.3], [0.7] and [0.9]. *)
Definition f01 : float := 0x1.999999999999ap-4%float.
Definition f02 : float := 0x1.999999999999ap-3%float.
Definition f03 : float := 0x1.3333333333333p-2%float.
Definition f07 : float := 0x1.6666666666666p-1%float.

Definition f09 : float := 0x1.ccccccccccccdp-1%float.

(** A certainty factor that is exactly 0 or exactly 1. *)
Definition zero_or_one (c : float) : Prop := c = 0%float \/ c = 1%float.

(** [T(True, c)] with a float certainty factor, where there is no time
    series. *)
Definition certain64 (c : float) : operand64 Empty_set :=
  Obj64 (mkT64 (PScalar (SBool true)) c).

(** ** Sample values for the further properties *)

(** An interview in which Jim is 16, Lucy is 25 and female, Lucy is a friend
    of Jim's, and the assessment date is 2005-01-01; nothing else is
    known. *)
Definition sample_In (type name : string) (p q : option string)
    (question : string) : result (arg Empty_set) :=
  match p, q with
  | Some "Jim"%string, None =>
      if String.eqb name "age" then Ok (Wrapped (wrap (SInt 16) 1))
      else Ok (Wrapped (stub 1))
  | Some "Lucy"%string, None =>
      if String.eqb name "age" then Ok (Wrapped (wrap (SInt 25) 1))
      else if String.eqb name "gender"
           then Ok (Wrapped (wrap (SStr "Female") 1))
           else Ok (Wrapped (stub 1))
  | Some "Jim"%string, Some "Lucy"%string =>
      if String.eqb name "relationship"
      then Ok (Wrapped (wrap (SStr "Friend") 1))
      else Ok (Wrapped (stub 1))
  | None, None =>
      if String.eqb name "assessment_date"
      then Ok (Wrapped (wrap (SStr "2005-01-01") 1))
      else Ok (Wrapped (stub 1))
  | _, _ => Ok (Wrapped (stub 1))
  end.

(** [T(series)] in the library with one series. *)
Definition the_series (c : Qc) : T unit := mkT (PSeries tt) c.

(** * Properties *)

Section Properties.

Context {TimeSeries : Type} {lib : Traces TimeSeries}.

#[local] Abbreviation payload := (payload TimeSeries).
#[local] Abbreviation T := (T TimeSeries).
#[local] Abbreviation operand := (operand TimeSeries).
#[local] Abbreviation arg := (arg TimeSeries).

(** *** The stub test *)

Lemma stub_marked_true (v : payload) : stub_marked v = true <-> v = StubVal.
Proof.
  unfold StubVal; split.
  - destruct v as [[| | | |s]|]; simpl; try discriminate.
    intros H; apply String.eqb_eq in H; now subst.
  - intros ->; reflexivity.
Qed.

Lemma stub_marked_false (v : payload) : stub_marked v = false <-> v <> StubVal.
Proof.
  rewrite <- stub_marked_true; destruct (stub_marked v); split;
    congruence.
Qed.

Lemma scalar_eqb_stub (s : scalar) :
  scalar_eqb s (SStr "#stub#") = stub_marked (@PScalar TimeSeries s).
Proof. destruct s as [| | | |x]; reflexivity. Qed.

Lemma is_stub_scalar (s : scalar) :
  is_stub (Bare (PScalar s)) = Ok (stub_marked (@PScalar TimeSeries s)).
Proof.
  unfold is_stub; simpl; now rewrite scalar_eqb_stub.
Qed.

Lemma is_stub_Obj (t : T) : is_stub (Obj t) = Ok (stub_marked (value t)).
Proof.
  unfold is_stub; simpl; unfold ts.
  destruct (value t) as [s|x]; simpl; [now rewrite scalar_eqb_stub|reflexivity].
Qed.

Lemma is_stub_arg (a : arg) : is_stub a = Ok (stub_marked (get_val a)).
Proof.
  destruct a as [s|t]; [apply is_stub_scalar|apply is_stub_Obj].
Qed.

Lemma or_else_Ok (x y : bool) : or_else (Ok x) (Ok y) = Ok (x || y).
Proof. now destruct x. Qed.

Lemma stub_test_arg (a b : arg) :
  or_else (is_stub a) (is_stub b)
  = Ok (stub_marked (get_val a) || stub_marked (get_val b)).
Proof. now rewrite !is_stub_arg, or_else_Ok. Qed.

(** *** Arithmetic and comparison: [process_binary], [process_binary_mult] *)

(** A branch that returns [Ok (mkT _ k)]: the goal [Ok _ = Ok r -> cf r = k]. *)
Ltac returned := intros [= <-]; reflexivity.

(** A branch that ends in a call which may raise. *)
Ltac called := match goal with
  | |- context [bind ?m _] => destruct m; simpl; [returned|discriminate]
  end.

Lemma is_none_wrapped (a : arg) :
  is_none a = true <-> exists c, a = Wrapped (mkT (PScalar SNone) c).
Proof.
  split.
  - destruct a as [s|[[[| | | |]|] c]]; simpl; try discriminate.
    intros _; now exists c.
  - intros [c ->]; reflexivity.
Qed.

Lemma process_binary_cf (f : payload -> payload -> result payload)
    (a b : operand) (r : T) :
  process_binary f a b = Ok r -> cf r = (get_cf a * get_cf b)%Qc.
Proof.
  unfold process_binary, cf_conj.
  destruct (or_else (is_stub a) (is_stub b)) as [[|]|e]; simpl;
    [returned| |discriminate].
  destruct (is_none a || is_none b); [returned|].
  destruct (is_ts_T a || is_ts_T b); called.
Qed.

Lemma process_binary_mult_cf (a b : operand) (r : T) :
  process_binary_mult a b = Ok r -> cf r = (get_cf a * get_cf b)%Qc.
Proof.
  unfold process_binary_mult, cf_conj.
  destruct (is_0 (get_val a) || is_0 (get_val b)); [returned|].
  destruct (or_else (is_stub a) (is_stub b)) as [[|]|e]; simpl;
    [returned| |discriminate].
  destruct (is_none a || is_none b); [returned|].
  destruct (is_ts_T a || is_ts_T b); called.
Qed.

Lemma process_binary_stub (f : payload -> payload -> result payload)
    (a b : arg) :
  get_val a = StubVal \/ get_val b = StubVal ->
  process_binary f a b = Ok (Stub (get_cf a * get_cf b)).
Proof.
  intros H; unfold process_binary; rewrite stub_test_arg.
  replace (stub_marked (get_val a) || stub_marked (get_val b)) with true;
    [reflexivity|].
  symmetry; apply orb_true_iff.
  destruct H as [H|H]; [left|right]; now apply stub_marked_true.
Qed.

Lemma process_binary_unset (f : payload -> payload -> result payload)
    (a b : arg) :
  get_val a <> StubVal -> get_val b <> StubVal ->
  is_none a = true \/ is_none b = true ->
  process_binary f a b = Ok (mkT (PScalar SNone) (get_cf a * get_cf b)).
Proof.
  intros Ha Hb H; unfold process_binary; rewrite stub_test_arg.
  apply stub_marked_false in Ha, Hb; rewrite Ha, Hb; simpl.
  apply orb_true_iff in H; now rewrite H.
Qed.

Lemma process_binary_mult_stub (a b : arg) :
  is_0 (get_val a) = false -> is_0 (get_val b) = false ->
  get_val a = StubVal \/ get_val b = StubVal ->
  process_binary_mult a b = Ok (Stub (get_cf a * get_cf b)).
Proof.
  intros Za Zb H; unfold process_binary_mult; rewrite Za, Zb; simpl.
  rewrite stub_test_arg.
  replace (stub_marked (get_val a) || stub_marked (get_val b)) with true;
    [reflexivity|].
  symmetry; apply orb_true_iff.
  destruct H as [H|H]; [left|right]; now apply stub_marked_true.
Qed.

Lemma process_binary_mult_unset (a b : arg) :
  is_0 (get_val a) = false -> is_0 (get_val b) = false ->
  get_val a <> StubVal -> get_val b <> StubVal ->
  is_none a = true \/ is_none b = true ->
  process_binary_mult a b = Ok (mkT (PScalar SNone) (get_cf a * get_cf b)).
Proof.
  intros Za Zb Ha Hb H; unfold process_binary_mult; rewrite Za, Zb; simpl.
  rewrite stub_test_arg.
  apply stub_marked_false in Ha, Hb; rewrite Ha, Hb; simpl.
  apply orb_true_iff in H; now rewrite H.
Qed.

(** C1 (amended).  For [process_binary f a b] on operands that are bare
    scalars or [T] objects, and for [process_binary_mult a b] when neither
    payload is the integer [0]:
    - whatever branch produces a result, its certainty factor is
      [get_cf a * get_cf b];
    - if the payload of either operand is the stub marker, the result is
      [Stub] with that certainty factor, for every [f] (also one that raises
      on every call): [f] is not called, and an Unset operand on the other
      side does not change the outcome;
    - otherwise, if either operand is a [T] whose payload is [None], the
      result is a [T] with payload [None] and that certainty factor, again
      for every [f].
    A bare [None] is not covered by the last case: [is_none] only
    recognises a [T]. *)
Theorem process_binary_stub_then_unset
    (f : payload -> payload -> result payload) (a b : arg) :
  (forall r, process_binary f a b = Ok r ->
             cf r = (get_cf a * get_cf b)%Qc)
  /\ (forall r, process_binary_mult a b = Ok r ->
                cf r = (get_cf a * get_cf b)%Qc)
  /\ (get_val a = StubVal \/ get_val b = StubVal ->
      process_binary f a b = Ok (Stub (get_cf a * get_cf b))
      /\ (is_0 (get_val a) = false -> is_0 (get_val b) = false ->
          process_binary_mult a b = Ok (Stub (get_cf a * get_cf b))))
  /\ (get_val a <> StubVal -> get_val b <> StubVal ->
      (exists c, a = Wrapped (mkT (PScalar SNone) c))
      \/ (exists c, b = Wrapped (mkT (PScalar SNone) c)) ->
      process_binary f a b
      = Ok (mkT (PScalar SNone) (get_cf a * get_cf b))
      /\ (is_0 (get_val a) = false -> is_0 (get_val b) = false ->
          process_binary_mult a b
          = Ok (mkT (PScalar SNone) (get_cf a * get_cf b)))).
Proof.
  split; [|split; [|split]].
  - intros r; apply process_binary_cf.
  - intros r; apply process_binary_mult_cf.
  - intros H; split; [now apply process_binary_stub|].
    intros Za Zb; now apply process_binary_mult_stub.
  - intros Ha Hb H.
    assert (H' : is_none a = true \/ is_none b = true)
      by (destruct H as [H|H]; [left|right]; now apply is_none_wrapped).
    split; [now apply process_binary_unset|].
    intros Za Zb; now apply process_binary_mult_unset.
Qed.

(** C2.  The short-circuit of [process_binary_mult] tests identity with the
    integer [0]: when either payload is that integer the result is [T(0)]
    with certainty factor [get_cf a * get_cf b], whatever the other operand
    holds (a stub, [None], a scalar, a time series) and on whichever side the
    zero stands.  A float zero is not recognised: [T(0.0) * Stub] and
    [Stub * T(0.0)] are [Stub]. *)
Theorem process_binary_mult_zero_is_identity :
  (forall a b : operand,
     is_0 (get_val a) = true \/ is_0 (get_val b) = true ->
     process_binary_mult a b
     = Ok (mkT (PScalar (SInt 0)) (get_cf a * get_cf b)))
  /\ (forall c c' : Qc,
        T_mul (mkT (PScalar (SFloat 0)) c) (Obj (Stub c')) = Ok (Stub (c * c'))
        /\ T_mul (Stub c') (Obj (mkT (PScalar (SFloat 0)) c))
           = Ok (Stub (c' * c))).
Proof.
  split.
  - intros a b H; unfold process_binary_mult.
    apply orb_true_iff in H; now rewrite H.
  - intros c c'; split; reflexivity.
Qed.

(** *** Logic: [internal_and], [internal_or], [And], [Or] *)

Lemma And_pair (a b : operand) :
  And [a; b] = (r <- internal_and a b ;; Ok (Obj r)).
Proof. reflexivity. Qed.

Lemma Or_pair (a b : operand) :
  Or [a; b] = (r <- internal_or a b ;; Ok (Obj r)).
Proof. reflexivity. Qed.

(** C3.  On operands (bare or wrapped) whose payloads are logic values,
    [internal_and], and so [And] on two arguments, returns the payload of the
    specification's table [spec_and] (False first, then Unset, then Stub,
    else True) with certainty factor [get_cf a * get_cf b]. *)
Theorem internal_and_truth_table (a b : arg) (x y : LogicValue) :
  get_val a = logic_payload x ->
  get_val b = logic_payload y ->
  internal_and a b
  = Ok (mkT (logic_payload (spec_and x y)) (get_cf a * get_cf b))
  /\ And [arg_operand a; arg_operand b]
     = Ok (Obj (mkT (logic_payload (spec_and x y)) (get_cf a * get_cf b))).
Proof.
  intros Ha Hb.
  assert (H : internal_and a b
              = Ok (mkT (logic_payload (spec_and x y)) (get_cf a * get_cf b))).
  { unfold internal_and; rewrite Ha, Hb.
    generalize (get_cf a * get_cf b)%Qc; intros k.
    destruct x, y; reflexivity. }
  split; [exact H|].
  now rewrite And_pair, H.
Qed.

(** C4.  On operands whose payloads are logic values, [internal_or], and so
    [Or] on two arguments, returns the payload of the specification's table
    [spec_or] (True first, then Unset, then Stub, else False) with certainty
    factor [get_cf a + get_cf b - get_cf a * get_cf b]. *)
Theorem internal_or_truth_table (a b : arg) (x y : LogicValue) :
  get_val a = logic_payload x ->
  get_val b = logic_payload y ->
  internal_or a b
  = Ok (mkT (logic_payload (spec_or x y))
            (get_cf a + get_cf b - get_cf a * get_cf b))
  /\ Or [arg_operand a; arg_operand b]
     = Ok (Obj (mkT (logic_payload (spec_or x y))
                    (get_cf a + get_cf b - get_cf a * get_cf b))).
Proof.
  intros Ha Hb.
  assert (H : internal_or a b
              = Ok (mkT (logic_payload (spec_or x y))
                        (get_cf a + get_cf b - get_cf a * get_cf b))).
  { unfold internal_or; rewrite Ha, Hb.
    generalize (get_cf a + get_cf b - get_cf a * get_cf b)%Qc; intros k.
    destruct x, y; reflexivity. }
  split; [exact H|].
  now rewrite Or_pair, H.
Qed.

(** *** Certainty factors in binary64 *)

Lemma SFmul_comm (prec emax : Z) (x y : spec_float) :
  SFmul prec emax x y = SFmul prec emax y x.
Proof.
  destruct x as [sx|sx| |sx mx ex], y as [sy|sy| |sy my ey]; simpl;
    rewrite ?(xorb_comm sx sy); try reflexivity.
  now rewrite (Pos.mul_comm mx my), (Z.add_comm ex ey).
Qed.

Lemma SFadd_comm (prec emax : Z) (x y : spec_float) :
  SFadd prec emax x y = SFadd prec emax y x.
Proof.
  destruct x as [sx|sx| |sx mx ex], y as [sy|sy| |sy my ey]; simpl;
    try reflexivity; try (destruct sx, sy; reflexivity).
  now rewrite (Z.min_comm ex ey), Z.add_comm.
Qed.

Lemma float_mul_comm (x y : float) : (x * y = y * x)%float.
Proof. apply Prim2SF_inj; rewrite !mul_spec; apply SFmul_comm. Qed.

Lemma float_add_comm (x y : float) : (x + y = y + x)%float.
Proof. apply Prim2SF_inj; rewrite !add_spec; apply SFadd_comm. Qed.

Lemma cf_conj64_comm (x y : float) : cf_conj64 x y = cf_conj64 y x.
Proof. apply float_mul_comm. Qed.

Lemma cf_disj64_comm (x y : float) : cf_disj64 x y = cf_disj64 y x.
Proof.
  unfold cf_disj64; now rewrite (float_add_comm x y), (float_mul_comm x y).
Qed.

(** In exact arithmetic both formulas are associative. *)
Lemma cf_conj_disj_assoc (x y z : Qc) :
  cf_conj (cf_conj x y) z = cf_conj x (cf_conj y z)
  /\ cf_disj (cf_disj x y) z = cf_disj x (cf_disj y z).
Proof. unfold cf_conj, cf_disj; split; ring. Qed.

Lemma more_internal_and64_cf
    (a b : payload) (k : float) (r : T64 TimeSeries) :
  more_internal_and64 a b k = Ok r -> cf64 r = k.
Proof.
  unfold more_internal_and64.
  destruct (is_False a || is_False b); [returned|].
  destruct (is_None a || is_None b); [returned|].
  destruct (or_else (is_stub (Bare a)) (is_stub (Bare b))) as [[|]|e]; simpl;
    [returned|returned|discriminate].
Qed.

Lemma more_internal_or64_cf
    (a b : payload) (k : float) (r : T64 TimeSeries) :
  more_internal_or64 a b k = Ok r -> cf64 r = k.
Proof.
  unfold more_internal_or64.
  destruct (is_True a || is_True b); [returned|].
  destruct (is_None a || is_None b); [returned|].
  destruct (or_else (is_stub (Bare a)) (is_stub (Bare b))) as [[|]|e]; simpl;
    [returned|returned|discriminate].
Qed.

Lemma internal_and64_cf (a b : operand64 TimeSeries) (r : T64 TimeSeries) :
  internal_and64 a b = Ok r -> cf64 r = (get_cf64 a * get_cf64 b)%float.
Proof. apply more_internal_and64_cf. Qed.

Lemma internal_or64_cf (a b : operand64 TimeSeries) (r : T64 TimeSeries) :
  internal_or64 a b = Ok r ->
  cf64 r = (get_cf64 a + get_cf64 b - get_cf64 a * get_cf64 b)%float.
Proof. apply more_internal_or64_cf. Qed.

Lemma more_internal_and64_total (s s' : scalar) (k : float) :
  exists v, more_internal_and64 (PScalar s) (PScalar s') k
            = Ok (mkT64 (TimeSeries := TimeSeries) v k).
Proof.
  unfold more_internal_and64.
  destruct (is_False _ || is_False _); [eexists; reflexivity|].
  destruct (is_None _ || is_None _); [eexists; reflexivity|].
  rewrite !is_stub_scalar, or_else_Ok.
  destruct (_ || _); eexists; reflexivity.
Qed.

Lemma more_internal_or64_total (s s' : scalar) (k : float) :
  exists v, more_internal_or64 (PScalar s) (PScalar s') k
            = Ok (mkT64 (TimeSeries := TimeSeries) v k).
Proof.
  unfold more_internal_or64.
  destruct (is_True _ || is_True _); [eexists; reflexivity|].
  destruct (is_None _ || is_None _); [eexists; reflexivity|].
  rewrite !is_stub_scalar, or_else_Ok.
  destruct (_ || _); eexists; reflexivity.
Qed.

(** C6 (amended).  With the certainty factors as the binary64 floats the
    code computes with: whatever the payloads and whichever branch produces
    the result, the certainty factor of [internal_and a b] is
    [get_cf a * get_cf b] and that of [internal_or a b] is
    [get_cf a + get_cf b - get_cf a * get_cf b], each rounded as the float
    operations round; both are commutative in the operands' certainty
    factors; and both are associative when every certainty factor is
    exactly 0 or exactly 1 (as with the default certainty factor).  On other
    certainty factors the two groupings can differ in the last place; in
    exact arithmetic they agree ([cf_conj_disj_assoc]).  On payloads that are
    not time series both combinators return a result (on a time series the
    stub test asks the library to compare the series with a string). *)
Theorem cf_of_and_or_binary64 (a b c : operand64 TimeSeries) :
  (forall r, internal_and64 a b = Ok r ->
             cf64 r = (get_cf64 a * get_cf64 b)%float)
  /\ (forall r, internal_or64 a b = Ok r ->
                cf64 r
                = (get_cf64 a + get_cf64 b - get_cf64 a * get_cf64 b)%float)
  /\ (forall r r', internal_and64 a b = Ok r -> internal_and64 b a = Ok r' ->
                   cf64 r = cf64 r')
  /\ (forall r r', internal_or64 a b = Ok r -> internal_or64 b a = Ok r' ->
                   cf64 r = cf64 r')
  /\ (zero_or_one (get_cf64 a) -> zero_or_one (get_cf64 b) ->
      zero_or_one (get_cf64 c) ->
      (forall ab bc r r',
         internal_and64 a b = Ok ab -> internal_and64 (Obj64 ab) c = Ok r ->
         internal_and64 b c = Ok bc -> internal_and64 a (Obj64 bc) = Ok r' ->
         cf64 r = cf64 r')
      /\ (forall ab bc r r',
            internal_or64 a b = Ok ab -> internal_or64 (Obj64 ab) c = Ok r ->
            internal_or64 b c = Ok bc -> internal_or64 a (Obj64 bc) = Ok r' ->
            cf64 r = cf64 r'))
  /\ (is_timeseries (get_val64 a) = false ->
      is_timeseries (get_val64 b) = false ->
      (exists v, internal_and64 a b
                 = Ok (mkT64 v (get_cf64 a * get_cf64 b)%float))
      /\ (exists v, internal_or64 a b
                    = Ok (mkT64 v (get_cf64 a + get_cf64 b
                                   - get_cf64 a * get_cf64 b)%float))).
Proof.
  split; [intros r; apply internal_and64_cf|].
  split; [intros r; apply internal_or64_cf|].
  split.
  { intros r r' H H'; apply internal_and64_cf in H, H'.
    rewrite H, H'; apply float_mul_comm. }
  split.
  { intros r r' H H'; apply internal_or64_cf in H, H'.
    rewrite H, H'; apply cf_disj64_comm. }
  split.
  { intros Ha Hb Hc; split.
    - intros ab bc r r' Hab Hr Hbc Hr'.
      apply internal_and64_cf in Hab, Hr, Hbc, Hr'; cbn [get_cf64] in Hr, Hr'.
      rewrite Hr, Hr', Hab, Hbc.
      destruct Ha as [-> | ->], Hb as [-> | ->], Hc as [-> | ->];
        reflexivity.
    - intros ab bc r r' Hab Hr Hbc Hr'.
      apply internal_or64_cf in Hab, Hr, Hbc, Hr'; cbn [get_cf64] in Hr, Hr'.
      rewrite Hr, Hr', Hab, Hbc.
      destruct Ha as [-> | ->], Hb as [-> | ->], Hc as [-> | ->];
        reflexivity. }
  intros Ha Hb; split.
  - unfold internal_and64.
    destruct (get_val64 a) as [s|], (get_val64 b) as [s'|]; try discriminate.
    apply more_internal_and64_total.
  - unfold internal_or64.
    destruct (get_val64 a) as [s|], (get_val64 b) as [s'|]; try discriminate.
    apply more_internal_or64_total.
Qed.

(** *** Negation: [Not] *)

Lemma Not_bool (depth : nat) (b : bool) (c : Qc) :
  Not (S depth) (Obj (mkT (PScalar (SBool b)) c))
  = Ok (Obj (mkT (PScalar (SBool (negb b))) c)).
Proof. destruct b; reflexivity. Qed.

(** C5.  At any depth that allows the call, [Not] flips a [T] holding [True]
    or [False] and keeps its certainty factor, so applying it twice gives the
    argument back; a [T] holding the stub marker or [None] is returned as it
    is. *)
Theorem Not_involution_and_fixed_points (depth : nat) (c : Qc) :
  (forall b : bool,
     Not (S depth) (Obj (mkT (PScalar (SBool b)) c))
     = Ok (Obj (mkT (PScalar (SBool (negb b))) c))
     /\ (r <- Not (S depth) (Obj (mkT (PScalar (SBool b)) c)) ;;
         Not (S depth) r)
        = Ok (Obj (mkT (PScalar (SBool b)) c)))
  /\ Not (S depth) (Obj (Stub c)) = Ok (Obj (Stub c))
  /\ Not (S depth) (Obj (mkT (PScalar SNone) c))
     = Ok (Obj (mkT (PScalar SNone) c)).
Proof.
  split; [|split; reflexivity].
  intros b; split; [apply Not_bool|].
  rewrite Not_bool; unfold bind; rewrite Not_bool.
  now rewrite negb_involutive.
Qed.

(** *** Conditional: [If] *)






(** *** The stub marker *)

(** C8 (amended).  An operand that is a bare scalar or a [T] is classified as
    a stub exactly when its payload is the string ["#stub#"]: the marker is
    an ordinary string value, so a string payload with that content is a
    stub, and [None], the booleans, the numbers and every other string are
    not.  The marker is not [None] and does not compare equal to it. *)
Theorem is_stub_iff_stub_string (a : arg) :
  (exists b, is_stub a = Ok b
             /\ (b = true <-> get_val a = PScalar (SStr "#stub#")))
  /\ (forall s : scalar, s <> SStr "#stub#" ->
                         is_stub (Bare (PScalar s)) = Ok false)
  /\ (exists s : string, StubVal = PScalar (SStr s) :> payload)
  /\ StubVal <> PScalar SNone :> payload
  /\ operator_eq StubVal (PScalar SNone) = Ok (PScalar (SBool false))
  /\ operator_eq (PScalar SNone) StubVal = Ok (PScalar (SBool false)).
Proof.
  split; [|split; [|split; [|split; [|split]]]]; try reflexivity.
  - exists (stub_marked (get_val a)); split; [apply is_stub_arg|].
    apply stub_marked_true.
  - intros s Hs; rewrite is_stub_scalar; f_equal.
    apply stub_marked_false; unfold StubVal; congruence.
  - now exists "#stub#"%string.
  - discriminate.
Qed.

(** *** The operators [~] and [!=] *)

(** C9.  [T.__invert__] is not [Not] on unresolved payloads: on a stub it
    returns [T(False)] with the same certainty factor where [Not] returns the
    stub, and on [None] it returns [T(None)] with certainty factor 1 where
    [Not] returns the argument with its own.  So [self != o], which is
    [~(self == o)], is [T(False)] with the certainty factor of the comparison
    whenever [self] or [o] is a stub, the comparison itself being [Stub]. *)
Theorem invert_is_not_Not (self : T) (o : arg) (c : Qc) (depth : nat) :
  T_invert (Stub c) = Ok (mkT (PScalar (SBool false)) c)
  /\ Not (S depth) (Obj (Stub c)) = Ok (Obj (Stub c))
  /\ T_invert (mkT (PScalar SNone) c) = Ok (mkT (PScalar SNone) 1)
  /\ Not (S depth) (Obj (mkT (PScalar SNone) c))
     = Ok (Obj (mkT (PScalar SNone) c))
  /\ (value self = StubVal \/ get_val o = StubVal ->
      T_eq self o = Ok (Stub (cf self * get_cf o))
      /\ T_ne self o = Ok (mkT (PScalar (SBool false)) (cf self * get_cf o))).
Proof.
  repeat split.
  - unfold T_eq; apply (process_binary_stub operator_eq (Wrapped self) o H).
  - unfold T_ne, T_eq.
    now rewrite (process_binary_stub operator_eq (Wrapped self) o H).
Qed.

(** *** Dominant operands are recognised by identity *)

Lemma more_internal_and_False (a b : payload) (k : Qc) (r : T) :
  more_internal_and a b k = Ok r ->
  (value r = PScalar (SBool false)
   <-> a = PScalar (SBool false) \/ b = PScalar (SBool false)).
Proof.
  unfold more_internal_and.
  destruct (is_False a || is_False b) eqn:E.
  - intros [= <-]; simpl; split; [intros _|reflexivity].
    apply orb_true_iff in E; destruct E as [E|E]; [left|right].
    + now destruct a as [[|[|]| | |]|].
    + now destruct b as [[|[|]| | |]|].
  - apply orb_false_iff in E; destruct E as [Ea Eb].
    assert (Hno : ~ (a = PScalar (SBool false) \/ b = PScalar (SBool false)))
      by (intros [-> | ->]; discriminate).
    destruct (is_None a || is_None b);
      [intros [= <-]; simpl; split; [discriminate|tauto]|].
    destruct (or_else _ _) as [[|]|e]; simpl; try discriminate;
      intros [= <-]; simpl; (split; [discriminate|tauto]).
Qed.

Lemma more_internal_or_True (a b : payload) (k : Qc) (r : T) :
  more_internal_or a b k = Ok r ->
  (value r = PScalar (SBool true)
   <-> a = PScalar (SBool true) \/ b = PScalar (SBool true)).
Proof.
  unfold more_internal_or.
  destruct (is_True a || is_True b) eqn:E.
  - intros [= <-]; simpl; split; [intros _|reflexivity].
    apply orb_true_iff in E; destruct E as [E|E]; [left|right].
    + now destruct a as [[|[|]| | |]|].
    + now destruct b as [[|[|]| | |]|].
  - apply orb_false_iff in E; destruct E as [Ea Eb].
    assert (Hno : ~ (a = PScalar (SBool true) \/ b = PScalar (SBool true)))
      by (intros [-> | ->]; discriminate).
    destruct (is_None a || is_None b);
      [intros [= <-]; simpl; split; [discriminate|tauto]|].
    destruct (or_else _ _) as [[|]|e]; simpl; try discriminate;
      intros [= <-]; simpl; (split; [discriminate|tauto]).
Qed.

(** C10.  [And] and [Or] recognise the dominant operand by identity with the
    boolean literal, not by truth value.  The integer [0] is false as a
    condition, yet [And(T(0), T(True))] is [T(True)]; the integer [1] is true
    as a condition, yet [Or(T(1), T(False))] is [T(False)].  In general the
    result of [internal_and] holds [False] exactly when a payload is the
    object [False], and that of [internal_or] holds [True] exactly when a
    payload is the object [True]. *)
Theorem And_Or_dominant_by_identity (a b : operand) (c1 c2 : Qc) :
  truth (PScalar (SInt 0)) = Ok false
  /\ And [Obj (mkT (PScalar (SInt 0)) c1); Obj (mkT (PScalar (SBool true)) c2)]
     = Ok (Obj (mkT (PScalar (SBool true)) (c1 * c2)))
  /\ truth (PScalar (SInt 1)) = Ok true
  /\ Or [Obj (mkT (PScalar (SInt 1)) c1); Obj (mkT (PScalar (SBool false)) c2)]
     = Ok (Obj (mkT (PScalar (SBool false)) (c1 + c2 - c1 * c2)))
  /\ (forall r, internal_and a b = Ok r ->
                (value r = PScalar (SBool false)
                 <-> get_val a = PScalar (SBool false)
                     \/ get_val b = PScalar (SBool false)))
  /\ (forall r, internal_or a b = Ok r ->
                (value r = PScalar (SBool true)
                 <-> get_val a = PScalar (SBool true)
                     \/ get_val b = PScalar (SBool true))).
Proof.
  split; [reflexivity|]. split; [reflexivity|].
  split; [reflexivity|]. split; [reflexivity|].
  split; intros r.
  - apply more_internal_and_False.
  - apply more_internal_or_True.
Qed.

End Properties.

(** * Closed instances: inputs without time series *)

#[local] Open Scope string_scope.

(** C1, witness: [Stub(1/2) + T(None, 1/3)] is [Stub(1/2 * 1/3)] whatever
    [f] is; [T(3) == T(None, 1/3)] is [T(None, 1 * 1/3)]. *)
Lemma process_binary_stub_then_unset_witness :
  (forall f,
     process_binary f (Obj (stub half)) (Obj (wrap SNone third))
     = Ok (stub (half * third)))
  /\ process_binary operator_eq (Obj (wrap (SInt 3) 1)) (Obj (wrap SNone third))
     = Ok (wrap SNone (1 * third)).
Proof.
  split.
  - intros f.
    destruct (process_binary_stub_then_unset f
                (Wrapped (stub half)) (Wrapped (wrap SNone third)))
      as (_ & _ & Hstub & _).
    apply (proj1 (Hstub (or_introl eq_refl))).
  - destruct (process_binary_stub_then_unset operator_eq
                (Wrapped (wrap (SInt 3) 1)) (Wrapped (wrap SNone third)))
      as (_ & _ & _ & Hunset).
    refine (proj1 (Hunset _ _ _)); [discriminate|discriminate|].
    right; now exists third.
Defined.

(** C1, counterexample: in [T(5) == None] the right operand is a bare value
    whose payload is [None], and neither operand is a stub; yet the result is
    not a [T] with payload [None]: [operator.eq] is called and the result is
    [T(False)], and with an [f] that raises the call raises. *)
Lemma process_binary_bare_none_counterexample :
  get_val (Bare (PScalar SNone)) = @PScalar Empty_set SNone
  /\ is_stub (Obj (wrap (SInt 5) 1)) = Ok false
  /\ is_stub (lib := scalars_only) (Bare (PScalar SNone)) = Ok false
  /\ process_binary operator_eq (Obj (wrap (SInt 5) 1)) (Bare (PScalar SNone))
     = Ok (wrap (SBool false) (1 * 1))
  /\ process_binary operator_eq (Obj (wrap (SInt 5) 1)) (Bare (PScalar SNone))
     <> Ok (wrap SNone (1 * 1))
  /\ process_binary (fun _ _ => Raise TypeError)
       (Obj (wrap (SInt 5) 1)) (Bare (PScalar SNone))
     = Raise TypeError.
Proof.
  repeat split; try reflexivity.
  intros H; discriminate H.
Qed.

(** C2, witness: [T(0, 1/2) * Stub(1/3)] and [Stub(1/3) * T(0, 1/2)] are
    [T(0)] with the product of the certainty factors. *)
Lemma process_binary_mult_zero_is_identity_witness :
  process_binary_mult (Obj (wrap (SInt 0) half)) (Obj (stub third))
  = Ok (wrap (SInt 0) (half * third))
  /\ process_binary_mult (Obj (stub third)) (Obj (wrap (SInt 0) half))
     = Ok (wrap (SInt 0) (third * half)).
Proof.
  split.
  - apply (proj1 (@process_binary_mult_zero_is_identity Empty_set _)
             (Obj (wrap (SInt 0) half)) (Obj (stub third))).
    left; reflexivity.
  - apply (proj1 (@process_binary_mult_zero_is_identity Empty_set _)
             (Obj (stub third)) (Obj (wrap (SInt 0) half))).
    right; reflexivity.
Defined.

(** C3, witness: AND(False, Stub) = False, AND(Unset, Stub) = Unset,
    AND(Stub, Stub) = Stub, AND(True, True) = True, the second operand bare
    in the last one. *)
Lemma internal_and_truth_table_witness :
  internal_and (Obj (wrap (SBool false) half)) (Obj (stub third))
  = Ok (wrap (SBool false) (half * third))
  /\ internal_and (Obj (wrap SNone half)) (Obj (stub third))
     = Ok (wrap SNone (half * third))
  /\ internal_and (Obj (stub half)) (Obj (stub third))
     = Ok (stub (half * third))
  /\ internal_and (Obj (wrap (SBool true) half)) (Bare (PScalar (SBool true)))
     = Ok (wrap (SBool true) (half * 1)).
Proof.
  repeat apply conj.
  - exact (proj1 (@internal_and_truth_table Empty_set _
                    (Wrapped (wrap (SBool false) half)) (Wrapped (stub third))
                    LFalse LStub eq_refl eq_refl)).
  - exact (proj1 (@internal_and_truth_table Empty_set _
                    (Wrapped (wrap SNone half)) (Wrapped (stub third))
                    LUnset LStub eq_refl eq_refl)).
  - exact (proj1 (@internal_and_truth_table Empty_set _
                    (Wrapped (stub half)) (Wrapped (stub third))
                    LStub LStub eq_refl eq_refl)).
  - exact (proj1 (@internal_and_truth_table Empty_set _
                    (Wrapped (wrap (SBool true) half)) (Scalar (SBool true))
                    LTrue LTrue eq_refl eq_refl)).
Defined.

(** C4, witness: OR(True, Stub) = True, OR(Unset, Stub) = Unset,
    OR(Stub, Stub) = Stub, OR(False, False) = False. *)
Lemma internal_or_truth_table_witness :
  internal_or (Obj (wrap (SBool true) half)) (Obj (stub third))
  = Ok (wrap (SBool true) (half + third - half * third))
  /\ internal_or (Obj (wrap SNone half)) (Obj (stub third))
     = Ok (wrap SNone (half + third - half * third))
  /\ internal_or (Obj (stub half)) (Obj (stub third))
     = Ok (stub (half + third - half * third))
  /\ internal_or (Obj (wrap (SBool false) half)) (Bare (PScalar (SBool false)))
     = Ok (wrap (SBool false) (half + 1 - half * 1)).
Proof.
  repeat apply conj.
  - exact (proj1 (@internal_or_truth_table Empty_set _
                    (Wrapped (wrap (SBool true) half)) (Wrapped (stub third))
                    LTrue LStub eq_refl eq_refl)).
  - exact (proj1 (@internal_or_truth_table Empty_set _
                    (Wrapped (wrap SNone half)) (Wrapped (stub third))
                    LUnset LStub eq_refl eq_refl)).
  - exact (proj1 (@internal_or_truth_table Empty_set _
                    (Wrapped (stub half)) (Wrapped (stub third))
                    LStub LStub eq_refl eq_refl)).
  - exact (proj1 (@internal_or_truth_table Empty_set _
                    (Wrapped (wrap (SBool false) half)) (Scalar (SBool false))
                    LFalse LFalse eq_refl eq_refl)).
Defined.

(** C6, witness: with a stub of certainty factor 1, the bare number 7 and
    an Unset value of certainty factor 0, both groupings of AND have the
    same certainty factor, and so have both groupings of OR. *)
Lemma cf_of_and_or_binary64_witness :
  cf64 (mkT64 (TimeSeries := Empty_set) (PScalar SNone) (1 * 1 * 0)%float)
  = cf64 (mkT64 (TimeSeries := Empty_set) (PScalar SNone)
            (1 * (1 * 0))%float)
  /\ cf64 (mkT64 (TimeSeries := Empty_set) (PScalar SNone)
             (1 + 1 - 1 * 1 + 0 - (1 + 1 - 1 * 1) * 0)%float)
     = cf64 (mkT64 (TimeSeries := Empty_set) (PScalar SNone)
               (1 + (1 + 0 - 1 * 0) - 1 * (1 + 0 - 1 * 0))%float).
Proof.
  destruct (@cf_of_and_or_binary64 Empty_set _
              (Obj64 (Stub64 1)) (Bare64 (PScalar (SInt 7)))
              (Obj64 (mkT64 (PScalar SNone) 0)))
    as (_ & _ & _ & _ & H & _).
  destruct H as (Hand & Hor);
    [right; reflexivity|right; reflexivity|left; reflexivity|].
  split.
  - exact (Hand (Stub64 (1 * 1)) (mkT64 (PScalar SNone) (1 * 0)) _ _
             eq_refl eq_refl eq_refl eq_refl).
  - exact (Hor (Stub64 (1 + 1 - 1 * 1)) (mkT64 (PScalar SNone) (1 + 0 - 1 * 0))
             _ _ eq_refl eq_refl eq_refl eq_refl).
Defined.

(** C6, counterexample: on float certainty factors the grouping matters.
    With [a], [b], [c] holding [True] with certainty factors 0.1, 0.2 and
    0.3, [(a & b) & c] has certainty factor 0.006000000000000001 and
    [a & (b & c)] has 0.006; with 0.1, 0.2 and 0.7, [(a | b) | c] has 0.784
    and [a | (b | c)] has 0.7839999999999999.  Python's [==] tells each pair
    apart. *)
Lemma cf_of_and_or_grouping_counterexample :
  (exists ab bc r r',
     internal_and64 (certain64 f01) (certain64 f02) = Ok ab
     /\ internal_and64 (Obj64 ab) (certain64 f03) = Ok r
     /\ internal_and64 (certain64 f02) (certain64 f03) = Ok bc
     /\ internal_and64 (certain64 f01) (Obj64 bc) = Ok r'
     /\ cf64 r = 0x1.89374bc6a7efbp-8%float
     /\ cf64 r' = 0x1.89374bc6a7efap-8%float
     /\ PrimFloat.eqb (cf64 r) (cf64 r') = false
     /\ cf64 r <> cf64 r')
  /\ (exists ab bc r r',
        internal_or64 (certain64 f01) (certain64 f02) = Ok ab
        /\ internal_or64 (Obj64 ab) (certain64 f07) = Ok r
        /\ internal_or64 (certain64 f02) (certain64 f07) = Ok bc
        /\ internal_or64 (certain64 f01) (Obj64 bc) = Ok r'
        /\ cf64 r = 0x1.916872b020c4ap-1%float
        /\ cf64 r' = 0x1.916872b020c49p-1%float
        /\ PrimFloat.eqb (cf64 r) (cf64 r') = false
        /\ cf64 r <> cf64 r').
Proof.
  split.
  - exists (mkT64 (PScalar (SBool true)) (f01 * f02)%float),
           (mkT64 (PScalar (SBool true)) (f02 * f03)%float),
           (mkT64 (PScalar (SBool true)) (f01 * f02 * f03)%float),
           (mkT64 (PScalar (SBool true)) (f01 * (f02 * f03))%float).
    repeat (split; [reflexivity|]).
    cbn [cf64]; intros H.
    apply (f_equal (fun v => PrimFloat.eqb v (f01 * (f02 * f03))%float)) in H.
    vm_compute in H; discriminate.
  - exists (mkT64 (PScalar (SBool true)) (f01 + f02 - f01 * f02)%float),
           (mkT64 (PScalar (SBool true)) (f02 + f07 - f02 * f07)%float),
           (mkT64 (PScalar (SBool true))
              (f01 + f02 - f01 * f02 + f07
               - (f01 + f02 - f01 * f02) * f07)%float),
           (mkT64 (PScalar (SBool true))
              (f01 + (f02 + f07 - f02 * f07)
               - f01 * (f02 + f07 - f02 * f07))%float).
    repeat (split; [reflexivity|]).
    cbn [cf64]; intros H.
    apply (f_equal
             (fun v => PrimFloat.eqb v
                         (f01 + (f02 + f07 - f02 * f07)
                          - f01 * (f02 + f07 - f02 * f07))%float)) in H.
    vm_compute in H; discriminate.
Qed.


(** C8, counterexample: not every string is different from the marker.  The
    string ["#stub#"], which a string-valued fact may hold, is classified as
    a stub and compares equal to [StubVal]. *)
Lemma stub_marker_is_a_string_counterexample :
  ~ (forall s : string,
       is_stub (lib := scalars_only) (Bare (PScalar (SStr s))) = Ok false)
  /\ is_stub (lib := scalars_only) (Obj (wrap (SStr "#stub#") 1)) = Ok true
  /\ operator_eq (lib := scalars_only) (PScalar (SStr "#stub#")) StubVal
     = Ok (PScalar (SBool true)).
Proof.
  split; [|split; reflexivity].
  intros H; specialize (H "#stub#"); discriminate H.
Qed.

(** C9, witness: [Stub(1/2) != 3] and [T(3, 1/2) != Stub(1/3)] are
    [T(False)]. *)
Lemma invert_is_not_Not_witness :
  T_ne (stub half) (Bare (PScalar (SInt 3)))
  = Ok (wrap (SBool false) (half * 1))
  /\ T_ne (wrap (SInt 3) half) (Obj (stub third))
     = Ok (wrap (SBool false) (half * third)).
Proof.
  split.
  - destruct (@invert_is_not_Not Empty_set _ (stub half) (Scalar (SInt 3))
                1 0) as (_ & _ & _ & _ & H).
    exact (proj2 (H (or_introl eq_refl))).
  - destruct (@invert_is_not_Not Empty_set _ (wrap (SInt 3) half)
                (Wrapped (stub third)) 1 0) as (_ & _ & _ & _ & H).
    exact (proj2 (H (or_intror eq_refl))).
Defined.

(** C10, witness: the result of [And(T(0), T(True))] does not hold [False],
    as neither payload is the object [False]. *)
Lemma And_Or_dominant_by_identity_witness :
  (value (wrap (SBool true) (half * third)) = PScalar (SBool false)
   <-> get_val (Obj (wrap (SInt 0) half)) = PScalar (SBool false)
       \/ get_val (Obj (wrap (SBool true) third)) = PScalar (SBool false))
  /\ (value (wrap (SBool false) (half + third - half * third))
      = PScalar (SBool true)
      <-> get_val (Obj (wrap (SInt 1) half)) = PScalar (SBool true)
          \/ get_val (Obj (wrap (SBool false) third)) = PScalar (SBool true)).
Proof.
  split.
  - destruct (@And_Or_dominant_by_identity Empty_set _
                (Obj (wrap (SInt 0) half)) (Obj (wrap (SBool true) third))
                1 1) as (_ & _ & _ & _ & H & _).
    exact (H _ eq_refl).
  - destruct (@And_Or_dominant_by_identity Empty_set _
                (Obj (wrap (SInt 1) half)) (Obj (wrap (SBool false) third))
                1 1) as (_ & _ & _ & _ & _ & H).
    exact (H _ eq_refl).
Defined.

(** * Further properties of [T.py] and of the rule built on it *)

Section MoreProperties.

Context {TimeSeries : Type} {lib : Traces TimeSeries}
        {ops : TracesOperators TimeSeries}.

#[local] Abbreviation payload := (payload TimeSeries).
#[local] Abbreviation T := (T TimeSeries).
#[local] Abbreviation operand := (operand TimeSeries).
#[local] Abbreviation arg := (arg TimeSeries).

(** *** Operands without a time series *)

Lemma no_series_scalar (a : operand) :
  no_series a -> exists s, scalar_of a = Some s /\ get_val a = PScalar s.
Proof.
  unfold no_series.
  destruct a as [[s|x]|[[s|x] c]]; simpl; try discriminate;
    intros _; now exists s.
Qed.

Lemma scalar_of_get_val (a : operand) (s : scalar) :
  scalar_of a = Some s -> get_val a = PScalar s.
Proof.
  destruct a as [[s'|x]|[[s'|x] c]]; simpl; congruence.
Qed.

Lemma is_stub_no_series (a : operand) (s : scalar) :
  scalar_of a = Some s -> is_stub a = Ok (stub_marked (@PScalar TimeSeries s)).
Proof.
  destruct a as [[s'|x]|[[s'|x] c]]; simpl; try discriminate; intros [= ->].
  - apply is_stub_scalar.
  - apply is_stub_Obj.
Qed.

(** *** The combinators on arbitrary scalars *)

Lemma more_internal_and_class (s s' : scalar) (k : Qc) :
  more_internal_and (PScalar s) (PScalar s') k
  = Ok (mkT (logic_payload (spec_and (and_class s) (and_class s'))) k).
Proof.
  unfold more_internal_and; rewrite !is_stub_scalar, or_else_Ok.
  destruct s as [|[|]|z|q|x], s' as [|[|]|z'|q'|x']; simpl;
    repeat match goal with
           | |- context [String.eqb ?x "#stub#"] =>
               destruct (String.eqb x "#stub#")
           end; reflexivity.
Qed.

Lemma more_internal_or_class (s s' : scalar) (k : Qc) :
  more_internal_or (PScalar s) (PScalar s') k
  = Ok (mkT (logic_payload (spec_or (or_class s) (or_class s'))) k).
Proof.
  unfold more_internal_or; rewrite !is_stub_scalar, or_else_Ok.
  destruct s as [|[|]|z|q|x], s' as [|[|]|z'|q'|x']; simpl;
    repeat match goal with
           | |- context [String.eqb ?x "#stub#"] =>
               destruct (String.eqb x "#stub#")
           end; reflexivity.
Qed.

Lemma internal_and_class (a b : operand) :
  no_series a -> no_series b ->
  internal_and a b
  = Ok (mkT (logic_payload (spec_and (and_class_of a) (and_class_of b)))
            (get_cf a * get_cf b)).
Proof.
  intros Ha Hb.
  destruct (no_series_scalar Ha) as (s & Hs & Hv).
  destruct (no_series_scalar Hb) as (s' & Hs' & Hv').
  unfold internal_and, and_class_of; rewrite Hs, Hs', Hv, Hv'.
  apply more_internal_and_class.
Qed.

Lemma internal_or_class (a b : operand) :
  no_series a -> no_series b ->
  internal_or a b
  = Ok (mkT (logic_payload (spec_or (or_class_of a) (or_class_of b)))
            (get_cf a + get_cf b - get_cf a * get_cf b)).
Proof.
  intros Ha Hb.
  destruct (no_series_scalar Ha) as (s & Hs & Hv).
  destruct (no_series_scalar Hb) as (s' & Hs' & Hv').
  unfold internal_or, or_class_of; rewrite Hs, Hs', Hv, Hv'.
  apply more_internal_or_class.
Qed.

(** X1.  On operands that hold no time series, bare or wrapped, whatever
    scalar they hold: [internal_and] reads every payload other than [False],
    [None] and the stub marker as [True] (so also [0], [0.0] and the empty
    string), [internal_or] reads every payload other than [True], [None] and
    the stub marker as [False] (so also [1] and a non-empty string), and the
    result is the precedence table on what was read. *)
Theorem internal_and_or_on_any_scalar (a b : operand) :
  no_series a -> no_series b ->
  internal_and a b
  = Ok (mkT (logic_payload (spec_and (and_class_of a) (and_class_of b)))
            (get_cf a * get_cf b))
  /\ internal_or a b
     = Ok (mkT (logic_payload (spec_or (or_class_of a) (or_class_of b)))
               (get_cf a + get_cf b - get_cf a * get_cf b)).
Proof.
  intros Ha Hb; split;
    [now apply internal_and_class|now apply internal_or_class].
Qed.

(** *** [And] and [Or] on any number of arguments *)

Lemma spec_and_comm (x y : LogicValue) : spec_and x y = spec_and y x.
Proof. now destruct x, y. Qed.

Lemma spec_and_assoc (x y z : LogicValue) :
  spec_and (spec_and x y) z = spec_and x (spec_and y z).
Proof. now destruct x, y, z. Qed.

Lemma spec_or_comm (x y : LogicValue) : spec_or x y = spec_or y x.
Proof. now destruct x, y. Qed.

Lemma spec_or_assoc (x y z : LogicValue) :
  spec_or (spec_or x y) z = spec_or x (spec_or y z).
Proof. now destruct x, y, z. Qed.

Lemma and_class_logic (x : LogicValue) (k : Qc) :
  and_class_of (Obj (mkT (@logic_payload TimeSeries x) k)) = x.
Proof. now destruct x. Qed.

Lemma or_class_logic (x : LogicValue) (k : Qc) :
  or_class_of (Obj (mkT (@logic_payload TimeSeries x) k)) = x.
Proof. now destruct x. Qed.

Lemma no_series_logic (x : LogicValue) (k : Qc) :
  no_series (Obj (mkT (@logic_payload TimeSeries x) k)).
Proof. now destruct x. Qed.

(** The loop of [reduce], from an accumulator that is a result of the
    combinator: the certainty factor is folded from the left, as the loop
    computes it. *)
Lemma And_loop (rest : list operand) (x : LogicValue) (k : Qc) :
  Forall no_series rest ->
  fold_left (fun acc y => a <- acc ;; r <- internal_and a y ;; Ok (Obj r))
    rest (Ok (Obj (mkT (logic_payload x) k)))
  = Ok (Obj (mkT (logic_payload
                    (spec_and x (all_and (map and_class_of rest))))
                 (fold_left cf_conj (cfs_of rest) k))).
Proof.
  revert x k; induction rest as [|y rest IH]; intros x k Hall.
  - cbn [fold_left map all_and fold_right cfs_of].
    do 3 f_equal; now destruct x.
  - inversion Hall as [|y' rest' Hy Hrest]; subst.
    cbn [fold_left bind].
    rewrite (internal_and_class (no_series_logic x k) Hy).
    cbn [bind]; rewrite and_class_logic; cbn [get_cf cf].
    rewrite (IH _ _ Hrest); cbn [map all_and fold_right cfs_of fold_left].
    now rewrite spec_and_assoc.
Qed.

Lemma Or_loop (rest : list operand) (x : LogicValue) (k : Qc) :
  Forall no_series rest ->
  fold_left (fun acc y => a <- acc ;; r <- internal_or a y ;; Ok (Obj r))
    rest (Ok (Obj (mkT (logic_payload x) k)))
  = Ok (Obj (mkT (logic_payload
                    (spec_or x (all_or (map or_class_of rest))))
                 (fold_left cf_disj (cfs_of rest) k))).
Proof.
  revert x k; induction rest as [|y rest IH]; intros x k Hall.
  - cbn [fold_left map all_or fold_right cfs_of].
    do 3 f_equal; now destruct x.
  - inversion Hall as [|y' rest' Hy Hrest]; subst.
    cbn [fold_left bind].
    rewrite (internal_or_class (no_series_logic x k) Hy).
    cbn [bind]; rewrite or_class_logic; cbn [get_cf cf].
    rewrite (IH _ _ Hrest); cbn [map all_or fold_right cfs_of fold_left].
    now rewrite spec_or_assoc.
Qed.

Lemma And_closed_form (a b : operand) (rest : list operand) :
  Forall no_series (a :: b :: rest) ->
  And (a :: b :: rest)
  = Ok (Obj (mkT (logic_payload
                    (all_and (map and_class_of (a :: b :: rest))))
                 (fold_left cf_conj (cfs_of (b :: rest)) (get_cf a)))).
Proof.
  intros Hall.
  inversion Hall as [|? ? Ha Hall']; subst.
  inversion Hall' as [|? ? Hb Hrest]; subst.
  unfold And, reduce; cbn [fold_left bind].
  rewrite (internal_and_class Ha Hb); cbn [bind].
  rewrite (And_loop _ _ Hrest).
  cbn [map all_and fold_right cfs_of fold_left].
  now rewrite spec_and_assoc.
Qed.

Lemma Or_closed_form (a b : operand) (rest : list operand) :
  Forall no_series (a :: b :: rest) ->
  Or (a :: b :: rest)
  = Ok (Obj (mkT (logic_payload
                    (all_or (map or_class_of (a :: b :: rest))))
                 (fold_left cf_disj (cfs_of (b :: rest)) (get_cf a)))).
Proof.
  intros Hall.
  inversion Hall as [|? ? Ha Hall']; subst.
  inversion Hall' as [|? ? Hb Hrest]; subst.
  unfold Or, reduce; cbn [fold_left bind].
  rewrite (internal_or_class Ha Hb); cbn [bind].
  rewrite (Or_loop _ _ Hrest).
  cbn [map all_or fold_right cfs_of fold_left].
  now rewrite spec_or_assoc.
Qed.

(** X2.  [And] on no argument raises [TypeError]; on one argument it returns
    that argument as it is (not wrapped, and not read as a logic value); on
    two or more arguments without time series it returns a [T] whose payload
    is the conjunction table over all arguments and whose certainty factor
    is [cf_conj] folded over the arguments' certainty factors from the
    left, [((c1 * c2) * c3) * ...], in the order in which [reduce] multiplies
    them. *)
Theorem And_of_a_sequence :
  And (@nil operand) = Raise TypeError
  /\ (forall x : operand, And [x] = Ok x)
  /\ (forall (a b : operand) (rest : list operand),
        Forall no_series (a :: b :: rest) ->
        And (a :: b :: rest)
        = Ok (Obj (mkT (logic_payload
                          (all_and (map and_class_of (a :: b :: rest))))
                       (fold_left cf_conj (cfs_of (b :: rest))
                          (get_cf a))))).
Proof.
  split; [reflexivity|]. split; [reflexivity|].
  intros a b rest; apply And_closed_form.
Qed.

(** X3.  [Or] on no argument raises [TypeError]; on one argument it returns
    that argument as it is; on two or more arguments without time series it
    returns a [T] whose payload is the disjunction table over all arguments
    and whose certainty factor is [cf_disj] folded over the arguments'
    certainty factors from the left: with [k] the certainty factor so far
    and [c] that of the next argument, [k + c - k * c], in the order in
    which [reduce] combines them. *)
Theorem Or_of_a_sequence :
  Or (@nil operand) = Raise TypeError
  /\ (forall x : operand, Or [x] = Ok x)
  /\ (forall (a b : operand) (rest : list operand),
        Forall no_series (a :: b :: rest) ->
        Or (a :: b :: rest)
        = Ok (Obj (mkT (logic_payload
                          (all_or (map or_class_of (a :: b :: rest))))
                       (fold_left cf_disj (cfs_of (b :: rest))
                          (get_cf a))))).
Proof.
  split; [reflexivity|]. split; [reflexivity|].
  intros a b rest; apply Or_closed_form.
Qed.

(** *** The order of the arguments *)

Lemma all_and_Permutation (l l' : list LogicValue) :
  Permutation l l' -> all_and l = all_and l'.
Proof.
  induction 1 as [|x l l' _ IH|x y l|l l' l'' _ IH _ IH']; simpl.
  - reflexivity.
  - now rewrite IH.
  - now rewrite <- !spec_and_assoc, (spec_and_comm y x).
  - now rewrite IH.
Qed.

Lemma all_or_Permutation (l l' : list LogicValue) :
  Permutation l l' -> all_or l = all_or l'.
Proof.
  induction 1 as [|x l l' _ IH|x y l|l l' l'' _ IH _ IH']; simpl.
  - reflexivity.
  - now rewrite IH.
  - now rewrite <- !spec_or_assoc, (spec_or_comm y x).
  - now rewrite IH.
Qed.

(** X4.  The order of the arguments of [And] and of [Or] does not matter
    to the payload: on arguments without time series, a rearranged argument
    list gives a result with the same payload (or the same [TypeError] when
    the list is empty).  Nothing is said of the certainty factor, which is
    folded in the order of the arguments. *)
Theorem And_Or_payload_order_independent (args args' : list operand) :
  Forall no_series args ->
  Permutation args args' ->
  same_payload (And args) (And args') /\ same_payload (Or args) (Or args').
Proof.
  intros Hall Hperm.
  assert (Hall' : Forall no_series args')
    by (eapply Permutation_Forall; eassumption).
  destruct args as [|a [|b rest]].
  - apply Permutation_nil in Hperm; subst; split; reflexivity.
  - apply Permutation_length_1_inv in Hperm; subst; split; reflexivity.
  - destruct args' as [|a' [|b' rest']];
      try (apply Permutation_length in Hperm; discriminate).
    rewrite !And_closed_form, !Or_closed_form by assumption.
    cbn [same_payload get_val value].
    rewrite (all_and_Permutation (Permutation_map and_class_of Hperm)).
    rewrite (all_or_Permutation (Permutation_map or_class_of Hperm)).
    split; reflexivity.
Qed.

(** *** De Morgan *)

(** X5.  On [T] operands with logic payloads, [Not(And(a, b))] and
    [Or(Not(a), Not(b))] have the same payload, and so have [Not(Or(a, b))]
    and [And(Not(a), Not(b))]; the certainty factors are not the same: the
    negated conjunction has [ca * cb], the disjunction of the negations has
    [ca + cb - ca * cb], and the other way round for the second pair.  They
    coincide exactly when [ca + cb = 2 * ca * cb]. *)
Theorem De_Morgan_on_payloads_only
    (depth : nat) (x y : LogicValue) (ca cb : Qc) :
  (r <- internal_and (Obj (mkT (logic_payload x) ca))
                     (Obj (mkT (logic_payload y) cb)) ;;
   Not (S depth) (Obj r))
  = Ok (Obj (mkT (logic_payload (spec_not (spec_and x y))) (ca * cb)))
  /\ (na <- Not (S depth) (Obj (mkT (logic_payload x) ca)) ;;
      nb <- Not (S depth) (Obj (mkT (logic_payload y) cb)) ;;
      r <- internal_or na nb ;; Ok (Obj r))
     = Ok (Obj (mkT (logic_payload (spec_not (spec_and x y)))
                    (ca + cb - ca * cb)))
  /\ (r <- internal_or (Obj (mkT (logic_payload x) ca))
                       (Obj (mkT (logic_payload y) cb)) ;;
      Not (S depth) (Obj r))
     = Ok (Obj (mkT (logic_payload (spec_not (spec_or x y)))
                    (ca + cb - ca * cb)))
  /\ (na <- Not (S depth) (Obj (mkT (logic_payload x) ca)) ;;
      nb <- Not (S depth) (Obj (mkT (logic_payload y) cb)) ;;
      r <- internal_and na nb ;; Ok (Obj r))
     = Ok (Obj (mkT (logic_payload (spec_not (spec_or x y))) (ca * cb)))
  /\ (ca * cb = ca + cb - ca * cb <-> ca + cb = (1 + 1) * ca * cb)%Qc.
Proof.
  repeat apply conj; try (destruct x, y; reflexivity).
  - intros H.
    replace ((1 + 1) * ca * cb)%Qc with (ca * cb + ca * cb)%Qc by ring.
    rewrite H at 1; ring.
  - intros H.
    replace (ca + cb - ca * cb)%Qc with ((ca + cb) - ca * cb)%Qc by ring.
    rewrite H; ring.
Qed.

(** *** Certainty factors between 0 and 1, in binary64 *)

(** X6.  With float certainty factors: when those of both operands are
    exactly 0 or exactly 1, so is that of the result of [internal_and] and
    of [internal_or], the conjunction being no more certain than either
    operand and the disjunction no less.  This is not so for all certainty
    factors between 0 and 1: whatever the payloads, [Or] of an operand of
    certainty factor 1 and one of certainty factor 0.9 has certainty factor
    0.9999999999999999, less than that of the first operand. *)
Theorem certainty_in_binary64 (a b : operand64 TimeSeries) :
  (zero_or_one (get_cf64 a) -> zero_or_one (get_cf64 b) ->
   (forall r, internal_and64 a b = Ok r ->
              zero_or_one (cf64 r)
              /\ (cf64 r <=? get_cf64 a)%float = true
              /\ (cf64 r <=? get_cf64 b)%float = true)
   /\ (forall r, internal_or64 a b = Ok r ->
                 zero_or_one (cf64 r)
                 /\ (get_cf64 a <=? cf64 r)%float = true
                 /\ (get_cf64 b <=? cf64 r)%float = true))
  /\ (forall (v v' : payload) (r : T64 TimeSeries),
        internal_or64 (Obj64 (mkT64 v 1)) (Obj64 (mkT64 v' f09)) = Ok r ->
        cf64 r = 0x1.fffffffffffffp-1%float
        /\ (cf64 r <? 1)%float = true).
Proof.
  split.
  - intros Ha Hb; split; intros r H;
      [apply internal_and64_cf in H|apply internal_or64_cf in H];
      rewrite H;
      destruct Ha as [-> | ->], Hb as [-> | ->];
      (split; [(left; reflexivity) || (right; reflexivity)
              |split; reflexivity]).
  - intros v v' r H; apply internal_or64_cf in H; rewrite H.
    split; reflexivity.
Qed.

(** *** A time series on the right of a scalar *)

Lemma process_binary_series_right
    (f : payload -> payload -> result payload) (a : arg) (t : T) :
  ts t = true -> no_series a -> get_val a <> StubVal -> is_none a = false ->
  process_binary f a (Obj t) = Raise AttributeError.
Proof.
  intros Ht Ha Hs Hn; unfold process_binary.
  rewrite is_stub_arg, is_stub_Obj, or_else_Ok.
  apply stub_marked_false in Hs; rewrite Hs.
  unfold ts in Ht; destruct t as [[s|x] c]; [discriminate|].
  cbn [value stub_marked orb bind]; rewrite Hn.
  cbn [is_none is_None value orb is_ts_T ts is_timeseries].
  rewrite orb_true_r; cbn [get_val value].
  destruct (no_series_scalar Ha) as (s & _ & ->); reflexivity.
Qed.

(** X7.  When the left operand is a resolved scalar, bare or wrapped, and
    the right operand is a [T] holding a time series, [process_binary]
    raises [AttributeError] whatever [f] and the library are: it asks the
    left payload for [operation].  So does [process_binary_mult] unless the
    left payload is the integer [0], and so do [a < b] and [a + b] for a
    wrapped resolved scalar [a] and a wrapped series [b], as in
    [hourly_wage(p) < fed_min_wage()] of [sandbox.py]. *)
Theorem series_on_the_right_raises
    (f : payload -> payload -> result payload) (a : arg) (t : T) :
  ts t = true -> no_series a -> get_val a <> StubVal -> is_none a = false ->
  process_binary f a (Obj t) = Raise AttributeError
  /\ (is_0 (get_val a) = false ->
      process_binary_mult a (Obj t) = Raise AttributeError)
  /\ (forall u : T, a = Wrapped u ->
                    py_lt a (Wrapped t) = Raise AttributeError
                    /\ py_add a (Wrapped t) = Raise AttributeError).
Proof.
  intros Ht Ha Hs Hn; split; [|split].
  - now apply process_binary_series_right.
  - intros Hz.
    assert (H : process_binary_mult a (Obj t)
                = process_binary operator_mul a (Obj t)).
    { unfold process_binary_mult, process_binary; rewrite Hz.
      unfold ts in Ht; destruct t as [[s|x] c]; [discriminate|reflexivity]. }
    rewrite H; now apply process_binary_series_right.
  - intros u ->; unfold py_lt, py_add, dispatch, T_lt, T_add.
    now rewrite !(@process_binary_series_right _ (Wrapped u) t Ht Ha Hs Hn).
Qed.

(** *** The short-circuit of multiplication *)

Lemma is_stub_int (a : operand) (n : Z) :
  get_val a = PScalar (SInt n) -> is_stub a = Ok false.
Proof.
  destruct a as [v|[v c]]; simpl; intros ->.
  - apply is_stub_scalar.
  - apply is_stub_Obj.
Qed.

Lemma is_none_int (a : operand) (n : Z) :
  get_val a = PScalar (SInt n) -> is_none a = false.
Proof. destruct a as [v|[v c]]; simpl; [reflexivity|now intros ->]. Qed.

Lemma is_ts_T_int (a : operand) (n : Z) :
  get_val a = PScalar (SInt n) -> is_ts_T a = false.
Proof. destruct a as [v|[v c]]; simpl; [reflexivity|now intros ->]. Qed.

Lemma process_binary_ints (a b : operand) (n m : Z) :
  get_val a = PScalar (SInt n) -> get_val b = PScalar (SInt m) ->
  process_binary operator_mul a b
  = Ok (mkT (PScalar (SInt (n * m))) (get_cf a * get_cf b)).
Proof.
  intros Ha Hb; unfold process_binary.
  rewrite (is_stub_int _ Ha), (is_stub_int _ Hb); cbn [or_else bind].
  rewrite (is_none_int _ Ha), (is_none_int _ Hb).
  rewrite (is_ts_T_int _ Ha), (is_ts_T_int _ Hb), Ha, Hb.
  reflexivity.
Qed.

(** X8.  The short-circuit of [process_binary_mult] does not show when both
    payloads are integers: the result is the product, as from
    [process_binary] with [operator.mul]; and away from the integer [0] the
    two functions agree on all operands.  It shows on other partners of [0]:
    [T(0) * T("ab")] is [T(0)] where the operator gives the empty string, and
    [T(0) * T(0.5)] is the integer [0] where the operator gives a float. *)
Theorem mult_short_circuit_and_operator (a b : operand) (c c' : Qc) :
  (is_0 (get_val a) = false -> is_0 (get_val b) = false ->
   process_binary_mult a b = process_binary operator_mul a b)
  /\ (forall n m : Z,
        get_val a = PScalar (SInt n) -> get_val b = PScalar (SInt m) ->
        process_binary_mult a b
        = Ok (mkT (PScalar (SInt (n * m))) (get_cf a * get_cf b))
        /\ process_binary_mult a b = process_binary operator_mul a b)
  /\ (process_binary_mult (Obj (mkT (PScalar (SInt 0)) c))
                          (Obj (mkT (PScalar (SStr "ab")) c'))
      = Ok (mkT (PScalar (SInt 0)) (c * c'))
      /\ process_binary operator_mul (Obj (mkT (PScalar (SInt 0)) c))
                                     (Obj (mkT (PScalar (SStr "ab")) c'))
         = Ok (mkT (PScalar (SStr "")) (c * c')))
  /\ (process_binary_mult (Obj (mkT (PScalar (SInt 0)) c))
                          (Obj (mkT (PScalar (SFloat half)) c'))
      = Ok (mkT (PScalar (SInt 0)) (c * c'))
      /\ process_binary operator_mul (Obj (mkT (PScalar (SInt 0)) c))
                                     (Obj (mkT (PScalar (SFloat half)) c'))
         = Ok (mkT (PScalar (SFloat 0)) (c * c'))).
Proof.
  split; [|split; [|split; split; try reflexivity]].
  3: { transitivity
         (Ok (mkT (@PScalar TimeSeries
                     (SFloat (Q2Qc (inject_Z 0) * half))) (c * c')));
         [reflexivity|].
       now replace (Q2Qc (inject_Z 0) * half)%Qc with (0%Qc)
         by (apply Qc_is_canon; reflexivity). }
  - intros Za Zb; unfold process_binary_mult, process_binary.
    now rewrite Za, Zb.
  - intros n m Ha Hb.
    assert (H : process_binary_mult a b
                = Ok (mkT (PScalar (SInt (n * m))) (get_cf a * get_cf b))).
    { unfold process_binary_mult.
      destruct (is_0 (get_val a) || is_0 (get_val b)) eqn:E.
      - rewrite Ha, Hb in E; unfold cf_conj; do 4 f_equal.
        apply orb_true_iff in E; destruct E as [E|E].
        + destruct n; try discriminate; reflexivity.
        + destruct m; try discriminate; now rewrite Z.mul_0_r.
      - fold (process_binary operator_mul a b).
        now apply process_binary_ints. }
    split; [exact H|].
    now rewrite H, (process_binary_ints _ _ Ha Hb).
Qed.

(** *** Equality and inequality *)

Lemma Qc_eq_bool_sym (p q : Qc) : Qc_eq_bool p q = Qc_eq_bool q p.
Proof.
  unfold Qc_eq_bool; destruct (Qc_eq_dec p q), (Qc_eq_dec q p); congruence.
Qed.

Lemma Qc_eq_bool_refl (p : Qc) : Qc_eq_bool p p = true.
Proof. unfold Qc_eq_bool; destruct (Qc_eq_dec p p); congruence. Qed.

Lemma scalar_eqb_sym (s s' : scalar) : scalar_eqb s s' = scalar_eqb s' s.
Proof.
  destruct s, s'; simpl; auto using Qc_eq_bool_sym, String.eqb_sym.
Qed.

Lemma scalar_eqb_refl (s : scalar) : scalar_eqb s s = true.
Proof.
  destruct s; simpl; auto using Qc_eq_bool_refl, String.eqb_refl.
Qed.

Lemma T_eq_scalars (s s' : scalar) (c c' : Qc) :
  T_eq (mkT (PScalar s) c) (Obj (mkT (PScalar s') c'))
  = Ok (if stub_marked (@PScalar TimeSeries s)
           || stub_marked (@PScalar TimeSeries s')
        then Stub (c * c')
        else match s, s' with
             | SNone, _ | _, SNone => mkT (PScalar SNone) (c * c')
             | _, _ => mkT (PScalar (SBool (scalar_eqb s s'))) (c * c')
             end).
Proof.
  unfold T_eq, process_binary; rewrite !is_stub_Obj, or_else_Ok.
  cbn [value bind].
  destruct (stub_marked (PScalar s) || stub_marked (PScalar s'));
    [reflexivity|].
  destruct s, s'; reflexivity.
Qed.

(** X9.  [==] between two wrapped scalars is symmetric, result for result;
    on resolved payloads it is the comparison of the two values with
    certainty factor [c * c'], and [!=] is its negation with the same
    certainty factor; a resolved value that is not a float equals itself,
    with the certainty factor squared (a float need not: NaN differs from
    itself). *)
Theorem eq_symmetric_ne_negates (s s' : scalar) (c c' : Qc) :
  T_eq (mkT (PScalar s) c) (Obj (mkT (PScalar s') c'))
  = T_eq (mkT (PScalar s') c') (Obj (mkT (PScalar s) c))
  /\ (s <> SNone -> s' <> SNone ->
      s <> SStr "#stub#" -> s' <> SStr "#stub#" ->
      T_eq (mkT (PScalar s) c) (Obj (mkT (PScalar s') c'))
      = Ok (mkT (PScalar (SBool (scalar_eqb s s'))) (c * c'))
      /\ T_ne (mkT (PScalar s) c) (Obj (mkT (PScalar s') c'))
         = Ok (mkT (PScalar (SBool (negb (scalar_eqb s s')))) (c * c'))
      /\ ((forall q, s <> SFloat q) ->
          T_eq (mkT (PScalar s) c) (Obj (mkT (PScalar s) c))
          = Ok (mkT (PScalar (SBool true)) (c * c)))).
Proof.
  assert (Hmark : forall x : scalar,
             x <> SStr "#stub#" -> stub_marked (@PScalar TimeSeries x) = false).
  { intros x Hx; apply stub_marked_false; unfold StubVal; congruence. }
  split.
  - rewrite !T_eq_scalars, (orb_comm (stub_marked (PScalar s'))).
    replace (c' * c)%Qc with (c * c')%Qc by ring.
    rewrite (scalar_eqb_sym s' s).
    destruct (_ || _); [reflexivity|]; destruct s, s'; reflexivity.
  - intros Hn Hn' Hs Hs'.
    assert (E : T_eq (mkT (PScalar s) c) (Obj (mkT (PScalar s') c'))
                = Ok (mkT (PScalar (SBool (scalar_eqb s s'))) (c * c'))).
    { rewrite T_eq_scalars, (Hmark _ Hs), (Hmark _ Hs'); cbn [orb].
      destruct s, s'; try reflexivity; congruence. }
    split; [exact E|split].
    + unfold T_ne; rewrite E; reflexivity.
    + intros _; rewrite T_eq_scalars, (Hmark _ Hs); cbn [orb].
      rewrite scalar_eqb_refl; destruct s; try reflexivity; congruence.
Qed.

(** *** Negation, again *)

(** [Not] on a [T] that holds a scalar. *)
Lemma Not_scalar (depth : nat) (s : scalar) (c : Qc) :
  Not (S depth) (Obj (mkT (PScalar s) c))
  = Ok (Obj (match and_class s with
             | LUnset | LStub => mkT (PScalar s) c
             | _ => mkT (PScalar (SBool (negb (scalar_bool s)))) c
             end)).
Proof.
  cbn [Not is_none is_None value]; rewrite is_stub_Obj; cbn [value].
  destruct s as [|[|]|z|q|x]; try reflexivity.
  cbn [stub_marked and_class or_else bind].
  destruct (String.eqb x "#stub#"); reflexivity.
Qed.

(** [Not] on a bare scalar. *)
Lemma Not_bare (depth : nat) (s : scalar) :
  Not (S depth) (Bare (PScalar s))
  = Ok (match and_class s with
        | LStub => Bare (PScalar s)
        | _ => Obj (mkT (PScalar (SBool (negb (scalar_bool s)))) 1)
        end).
Proof.
  cbn [Not is_none]; rewrite is_stub_scalar.
  destruct s as [|[|]|z|q|x]; try reflexivity.
  cbn [stub_marked and_class or_else bind].
  destruct (String.eqb x "#stub#"); reflexivity.
Qed.

Lemma Not_bool_T (depth : nat) (b : bool) (c : Qc) :
  Not (S depth) (Obj (mkT (PScalar (SBool b)) c))
  = Ok (Obj (mkT (PScalar (SBool (negb b))) c)).
Proof. rewrite Not_scalar; now destruct b. Qed.

(** X10.  Applying [Not] three times is applying it once, on every operand
    without a time series; applying it twice is not the identity: on a
    resolved scalar in a [T] it gives the truth value of the scalar, with the
    same certainty factor.  On a bare operand [Not] wraps its result with
    certainty factor 1, except the bare stub marker, which it returns bare;
    a bare [None] is negated to [T(True)], where [T(None)] is returned as
    it is. *)
Theorem Not_three_times (depth : nat) (a : operand) :
  no_series a ->
  (r1 <- Not (S depth) a ;; r2 <- Not (S depth) r1 ;; Not (S depth) r2)
  = Not (S depth) a
  /\ (forall s c, a = Obj (mkT (PScalar s) c) ->
                  and_class s <> LUnset -> and_class s <> LStub ->
                  (r1 <- Not (S depth) a ;; Not (S depth) r1)
                  = Ok (Obj (mkT (PScalar (SBool (scalar_bool s))) c)))
  /\ (forall s, a = Bare (PScalar s) -> and_class s <> LStub ->
                Not (S depth) a
                = Ok (Obj (mkT (PScalar (SBool (negb (scalar_bool s)))) 1)))
  /\ Not (S depth) (Bare (PScalar SNone))
     = Ok (Obj (mkT (PScalar (SBool true)) 1))
  /\ Not (S depth) (Bare StubVal) = Ok (Bare StubVal).
Proof.
  intros Ha; split; [|split; [|split; [|split; reflexivity]]].
  - destruct a as [[s|x]|[[s|x] c]]; try discriminate Ha.
    + rewrite Not_bare.
      destruct (and_class s) eqn:E; cbn [bind];
        rewrite ?Not_bool_T, ?Not_bare, ?E; cbn [bind];
        rewrite ?Not_bool_T, ?Not_bare, ?E, ?negb_involutive; reflexivity.
    + rewrite Not_scalar.
      destruct (and_class s) eqn:E; cbn [bind];
        rewrite ?Not_bool_T, ?Not_scalar, ?E; cbn [bind];
        rewrite ?Not_bool_T, ?Not_scalar, ?E, ?negb_involutive; reflexivity.
  - intros s c -> Hu Hs; rewrite Not_scalar.
    destruct (and_class s); try congruence; cbn [bind];
      now rewrite Not_bool_T, negb_involutive.
  - intros s -> Hs; rewrite Not_bare.
    destruct (and_class s); congruence.
Qed.

(** X11.  On a [T] whose payload is resolved (not [None], not the stub
    marker, not a time series) the operator [~] and the combinator [Not]
    return the same object: they differ on unresolved payloads only. *)
Theorem invert_is_Not_when_resolved (depth : nat) (s : scalar) (c : Qc) :
  s <> SNone -> s <> SStr "#stub#" ->
  Not (S depth) (Obj (mkT (PScalar s) c))
  = (r <- T_invert (mkT (PScalar s) c) ;; Ok (Obj r))
  /\ T_invert (mkT (PScalar s) c)
     = Ok (mkT (PScalar (SBool (negb (scalar_bool s)))) c).
Proof.
  intros Hn Hs.
  assert (E : T_invert (mkT (PScalar s) c)
              = Ok (mkT (PScalar (SBool (negb (scalar_bool s)))) c))
    by (destruct s; try reflexivity; congruence).
  split; [|exact E].
  rewrite E, Not_scalar; cbn [bind].
  destruct s as [|[|]|z|q|x]; try reflexivity; try congruence.
  cbn [and_class]; destruct (String.eqb_spec x "#stub#"); [|reflexivity].
  congruence.
Qed.

(** *** [If] and [Not] *)

(** X12.  Negating the condition swaps the branches: for a condition that is
    a [T] without a time series, [If(Not(c), a, b)] is [If(c, b, a)], also
    when the condition is unresolved (both are the condition itself). *)
Theorem If_Not_swaps_branches (depth : nat) (s : scalar) (c : Qc)
    (a b : operand) :
  (n <- Not (S depth) (Obj (mkT (PScalar s) c)) ;; If n a b)
  = If (Obj (mkT (PScalar s) c)) b a.
Proof.
  rewrite Not_scalar; cbn [bind]; unfold If.
  cbn [is_none is_None value get_val]; rewrite !is_stub_Obj; cbn [value].
  destruct s as [|[|]|z|q|x]; cbn [and_class]; try reflexivity.
  - cbn; destruct (negb (z =? 0)%Z); reflexivity.
  - cbn; destruct (negb (Qc_eq_bool q 0)); reflexivity.
  - destruct (String.eqb x "#stub#") eqn:E;
      cbn; rewrite ?E; cbn; rewrite ?E; cbn;
      try destruct (negb (String.eqb x "")); reflexivity.
Qed.

(** *** Reflected addition and subtraction *)

(** X13.  [bare + T] is evaluated by [__radd__], which applies the operator
    with the [T] first: on numbers the sum is the same, on strings the
    concatenation comes out in the reverse order, [s' + T(s)] being
    [T(s ++ s')] like [T(s) + s'].  [__rsub__] applies the operator with the
    bare operand first, so [n - T(m)] is [T(n - m)]. *)
Theorem reflected_add_keeps_self_first (s s' : string) (n m : Z) (c : Qc) :
  s <> "#stub#"%string -> s' <> "#stub#"%string ->
  py_add (Scalar (SStr s')) (Wrapped (mkT (PScalar (SStr s)) c))
  = Ok (Obj (mkT (PScalar (SStr (String.append s s'))) (c * 1)))
  /\ py_add (Wrapped (mkT (PScalar (SStr s)) c)) (Scalar (SStr s'))
     = Ok (Obj (mkT (PScalar (SStr (String.append s s'))) (c * 1)))
  /\ py_add (Scalar (SInt n)) (Wrapped (mkT (PScalar (SInt m)) c))
     = Ok (Obj (mkT (PScalar (SInt (m + n))) (c * 1)))
  /\ py_sub (Scalar (SInt n)) (Wrapped (mkT (PScalar (SInt m)) c))
     = Ok (Obj (mkT (PScalar (SInt (n - m))) (1 * c)))
  /\ py_sub (Wrapped (mkT (PScalar (SInt m)) c)) (Scalar (SInt n))
     = Ok (Obj (mkT (PScalar (SInt (m - n))) (c * 1))).
Proof.
  intros Hs Hs'.
  apply String.eqb_neq in Hs, Hs'.
  assert (E : process_binary (operator Add)
                (Obj (mkT (PScalar (SStr s)) c)) (Bare (PScalar (SStr s')))
              = Ok (mkT (PScalar (SStr (String.append s s'))) (c * 1))).
  { unfold process_binary.
    rewrite is_stub_Obj, is_stub_scalar; cbn [value stub_marked].
    now rewrite Hs, Hs'. }
  repeat apply conj; try reflexivity;
    unfold py_add, dispatch, T_radd, T_add; cbn [arg_operand];
    now rewrite E.
Qed.

(** *** The rule [is_qualifying_relative] *)

Lemma compare_ints (n m : Z) :
  scalar_compare (SInt n) (SInt m) = Some (n ?= m)%Z.
Proof.
  cbn [scalar_compare as_number]; f_equal.
  unfold Qccompare, Q2Qc; cbn [this]; rewrite <- Qred_compare.
  unfold Qcompare; simpl; now rewrite !Z.mul_1_r.
Qed.

(** A comparison of a numeric fact with an integer literal. *)
Lemma compare_num_fact (op : binop) (f : fact Z) (k : Z) (c : Qc) :
  op <> Add -> op <> Sub ->
  process_binary (operator op)
    (Obj (mkT (fact_payload SInt f) c)) (Bare (PScalar (SInt k)))
  = Ok (mkT (logic_payload (fact_test (fun n => holds op (n ?= k)%Z) f))
            (c * 1)).
Proof.
  intros Ha Hs; unfold process_binary.
  rewrite is_stub_Obj, is_stub_scalar; cbn [value].
  destruct f as [n| |]; try reflexivity.
  cbn [fact_payload fact_test stub_marked or_else bind orb is_none is_None
       value is_ts_T ts is_timeseries get_val operator].
  unfold scalar_binop; rewrite compare_ints.
  destruct op; try congruence; cbn [bind];
    destruct (holds _ _); reflexivity.
Qed.

Lemma proper_marked (f : fact string) :
  proper f ->
  stub_marked (@fact_payload _ TimeSeries SStr f)
  = match f with Pending => true | _ => false end.
Proof.
  unfold proper; destruct f as [x| |]; try reflexivity.
  intros H; cbn; apply String.eqb_neq; congruence.
Qed.

Lemma eq_str_fact (f : fact string) (lit : string) (c : Qc) :
  proper f -> lit <> "#stub#"%string ->
  process_binary operator_eq
    (Obj (mkT (fact_payload SStr f) c)) (Bare (PScalar (SStr lit)))
  = Ok (mkT (logic_payload (fact_test (fun x => String.eqb x lit) f))
            (c * 1)).
Proof.
  intros Hf Hlit; unfold process_binary.
  rewrite is_stub_Obj, is_stub_scalar; cbn [value].
  rewrite (proper_marked Hf); cbn [stub_marked].
  apply String.eqb_neq in Hlit; rewrite Hlit.
  destruct f as [x| |]; try reflexivity.
  cbn; destruct (String.eqb x lit); reflexivity.
Qed.

Lemma gt_str_fact (f : fact string) (lit : string) (c : Qc) :
  proper f -> lit <> "#stub#"%string ->
  process_binary (operator Gt)
    (Obj (mkT (fact_payload SStr f) c)) (Bare (PScalar (SStr lit)))
  = Ok (mkT (logic_payload
               (fact_test (fun x => holds Gt (String.compare x lit)) f))
            (c * 1)).
Proof.
  intros Hf Hlit; unfold process_binary.
  rewrite is_stub_Obj, is_stub_scalar; cbn [value].
  rewrite (proper_marked Hf); cbn [stub_marked].
  apply String.eqb_neq in Hlit; rewrite Hlit.
  destruct f as [x| |]; try reflexivity.
  cbn; destruct (String.compare x lit); reflexivity.
Qed.

Lemma Not_logic (depth : nat) (x : LogicValue) (k : Qc) :
  Not (S depth) (Obj (mkT (logic_payload x) k))
  = Ok (Obj (mkT (logic_payload (spec_not x)) k)).
Proof. destruct x; reflexivity. Qed.

(** X14.  [is_qualifying_relative(a, b)], when the five facts it asks for
    come back as [T] objects holding an answer of the expected type, the stub
    marker (still to be asked) or [None] (not applicable): the result is a
    [T] whose payload is the conjunction table over the five tests (age of
    [a] under 18, age of [b] at least 18, gender of [b] equal to "Female",
    relationship not equal to "Child", assessment date after "2001-01-01" as
    strings), each test being True or False when its fact is answered, Stub
    when it is still to be asked and Unset when it is not applicable; the
    certainty factor is the product of the five facts' certainty factors.
    So one answered test that fails makes the result [False] whatever is
    still to be asked. *)
Theorem is_qualifying_relative_decides
    (In_ : string -> string -> option string -> option string -> string
           -> result arg)
    (depth : nat) (a b : string)
    (age_a age_b : fact Z) (gender_b rel date : fact string)
    (c1 c2 c3 c4 c5 : Qc) :
  age In_ a = Ok (Wrapped (mkT (fact_payload SInt age_a) c1)) ->
  age In_ b = Ok (Wrapped (mkT (fact_payload SInt age_b) c2)) ->
  gender In_ b = Ok (Wrapped (mkT (fact_payload SStr gender_b) c3)) ->
  relationship In_ a b = Ok (Wrapped (mkT (fact_payload SStr rel) c4)) ->
  assessment_date In_ = Ok (Wrapped (mkT (fact_payload SStr date) c5)) ->
  proper gender_b -> proper rel -> proper date ->
  is_qualifying_relative In_ (S depth) a b
  = Ok (Obj (mkT (logic_payload
                    (all_and
                       [fact_test (fun n => (n <? 18)%Z) age_a;
                        fact_test (fun n => (n >=? 18)%Z) age_b;
                        fact_test (fun x => String.eqb x "Female") gender_b;
                        spec_not
                          (fact_test (fun x => String.eqb x "Child") rel);
                        fact_test
                          (fun d => holds Gt (String.compare d "2001-01-01"))
                          date]))
                 (c1 * c2 * c3 * c4 * c5)))
  /\ (forall n, age_a = Known n -> (18 <= n)%Z ->
                is_qualifying_relative In_ (S depth) a b
                = Ok (Obj (mkT (PScalar (SBool false))
                               (c1 * c2 * c3 * c4 * c5)))).
Proof.
  intros H1 H2 H3 H4 H5 Pg Pr Pd.
  assert (E : is_qualifying_relative In_ (S depth) a b
              = Ok (Obj (mkT (logic_payload
                    (all_and
                       [fact_test (fun n => (n <? 18)%Z) age_a;
                        fact_test (fun n => (n >=? 18)%Z) age_b;
                        fact_test (fun x => String.eqb x "Female") gender_b;
                        spec_not
                          (fact_test (fun x => String.eqb x "Child") rel);
                        fact_test
                          (fun d => holds Gt (String.compare d "2001-01-01"))
                          date]))
                 (c1 * c2 * c3 * c4 * c5)))).
  { unfold is_qualifying_relative.
    rewrite H1, H2, H3, H4, H5; cbn [bind].
    unfold py_lt, py_ge, py_eq, py_gt, dispatch, T_lt, T_ge, T_eq, T_gt.
    cbn [arg_operand].
    rewrite !compare_num_fact by discriminate; cbn [bind].
    rewrite !eq_str_fact by (assumption || discriminate); cbn [bind].
    rewrite gt_str_fact by (assumption || discriminate); cbn [bind].
    rewrite Not_logic; cbn [bind].
    rewrite And_closed_form by (repeat constructor; apply no_series_logic).
    cbn [map]; rewrite !and_class_logic.
    do 3 f_equal; unfold cfs_of, cf_conj; simpl; ring. }
  split; [exact E|].
  intros n -> Hn; rewrite E; do 3 f_equal.
  cbn [all_and fold_right fact_test].
  replace (n <? 18)%Z with false by (symmetry; apply Z.ltb_ge; exact Hn).
  reflexivity.
Qed.

(** *** Order comparisons *)

Lemma scalar_compare_antisym (s s' : scalar) (c : comparison) :
  scalar_compare s s' = Some c -> scalar_compare s' s = Some (CompOpp c).
Proof.
  assert (Hq : forall p q : Qc, (q ?= p)%Qc = CompOpp (p ?= q)%Qc)
    by (intros p q; unfold Qccompare; now rewrite Qcompare_antisym).
  destruct s as [|b|z|q|x], s' as [|b'|z'|q'|x']; cbn; try discriminate;
    intros [= <-]; f_equal; auto using String.compare_antisym.
Qed.

Lemma compare_scalars (op : binop) (s s' : scalar) (k k' : Qc) :
  op <> Add -> op <> Sub ->
  s <> SStr "#stub#" -> s' <> SStr "#stub#" -> s <> SNone -> s' <> SNone ->
  process_binary (operator op)
    (Obj (mkT (PScalar s) k)) (Obj (mkT (PScalar s') k'))
  = match scalar_compare s s' with
    | Some c => Ok (mkT (PScalar (SBool (holds op c))) (k * k'))
    | None => Raise TypeError
    end.
Proof.
  intros Ha Hb Hs Hs' Hn Hn'; unfold process_binary.
  rewrite !is_stub_Obj, or_else_Ok; cbn [value].
  assert (Hmark : forall x : scalar,
             x <> SStr "#stub#" -> stub_marked (@PScalar TimeSeries x) = false).
  { intros x Hx; apply stub_marked_false; unfold StubVal; congruence. }
  rewrite (Hmark _ Hs), (Hmark _ Hs'); cbn [orb bind].
  assert (E : is_none (Obj (mkT (@PScalar TimeSeries s) k))
              || is_none (Obj (mkT (@PScalar TimeSeries s') k')) = false)
    by (destruct s, s'; try reflexivity; congruence).
  rewrite E; cbn [is_ts_T ts value is_timeseries orb get_val operator].
  unfold scalar_binop; destruct op; try congruence;
    destruct (scalar_compare s s'); reflexivity.
Qed.

(** X15.  The order comparisons between two wrapped, resolved scalars
    neither of which is a float: when the two values are comparable (two
    integers or booleans, or two strings), [a < b] and [a >= b] are
    negations of each other, as are [a > b] and [a <= b], and [b > a] holds
    what [a < b] holds, all with the product of the certainty factors; when
    they are not comparable (an integer and a string), each of the four
    raises [TypeError].  Floats are left out: with NaN every comparison is
    false. *)
Theorem order_comparisons (s s' : scalar) (k k' : Qc) :
  s <> SStr "#stub#" -> s' <> SStr "#stub#" -> s <> SNone -> s' <> SNone ->
  (forall q, s <> SFloat q) -> (forall q, s' <> SFloat q) ->
  (forall c, scalar_compare s s' = Some c ->
     T_lt (mkT (PScalar s) k) (Obj (mkT (PScalar s') k'))
     = Ok (mkT (PScalar (SBool (holds Lt c))) (k * k'))
     /\ T_ge (mkT (PScalar s) k) (Obj (mkT (PScalar s') k'))
        = Ok (mkT (PScalar (SBool (negb (holds Lt c)))) (k * k'))
     /\ T_gt (mkT (PScalar s) k) (Obj (mkT (PScalar s') k'))
        = Ok (mkT (PScalar (SBool (holds Gt c))) (k * k'))
     /\ T_le (mkT (PScalar s) k) (Obj (mkT (PScalar s') k'))
        = Ok (mkT (PScalar (SBool (negb (holds Gt c)))) (k * k'))
     /\ T_gt (mkT (PScalar s') k') (Obj (mkT (PScalar s) k))
        = Ok (mkT (PScalar (SBool (holds Lt c))) (k' * k)))
  /\ (scalar_compare s s' = None ->
      T_lt (mkT (PScalar s) k) (Obj (mkT (PScalar s') k')) = Raise TypeError
      /\ T_le (mkT (PScalar s) k) (Obj (mkT (PScalar s') k'))
         = Raise TypeError
      /\ T_gt (mkT (PScalar s) k) (Obj (mkT (PScalar s') k'))
         = Raise TypeError
      /\ T_ge (mkT (PScalar s) k) (Obj (mkT (PScalar s') k'))
         = Raise TypeError).
Proof.
  intros Hs Hs' Hn Hn' _ _; unfold T_lt, T_le, T_gt, T_ge; split.
  - intros c Hc.
    rewrite !compare_scalars by (assumption || discriminate).
    rewrite Hc, (scalar_compare_antisym _ _ Hc).
    destruct c; repeat split; reflexivity.
  - intros Hc.
    rewrite !compare_scalars by (assumption || discriminate).
    rewrite Hc; repeat split; reflexivity.
Qed.

End MoreProperties.

(** * Closed instances of the further properties *)

(** X1, witness: [And(0, T("", 1/2))] is [T(True)]: neither payload is
    [False], [None] or the stub marker; [Or(1, T("x", 1/2))] is [T(False)]. *)
Lemma internal_and_or_on_any_scalar_witness :
  internal_and (Bare (PScalar (SInt 0))) (Obj (wrap (SStr "") half))
  = Ok (wrap (SBool true) (1 * half))
  /\ internal_or (Bare (PScalar (SInt 1))) (Obj (wrap (SStr "x") half))
     = Ok (wrap (SBool false) (1 + half - 1 * half)).
Proof.
  split.
  - exact (proj1 (@internal_and_or_on_any_scalar Empty_set _
                    (Bare (PScalar (SInt 0))) (Obj (wrap (SStr "") half))
                    eq_refl eq_refl)).
  - exact (proj2 (@internal_and_or_on_any_scalar Empty_set _
                    (Bare (PScalar (SInt 1))) (Obj (wrap (SStr "x") half))
                    eq_refl eq_refl)).
Defined.

(** X2, witness: [And(T(True, 1/2), 5, T("yes", 1/3))] is [T(True)] with
    certainty factor [(1/2 * 1) * 1/3]. *)
Lemma And_of_a_sequence_witness :
  And [Obj (wrap (SBool true) half); Bare (PScalar (SInt 5));
       Obj (wrap (SStr "yes") third)]
  = Ok (Obj (wrap (SBool true) (half * 1 * third))).
Proof.
  refine (proj2 (proj2 (@And_of_a_sequence Empty_set _))
            (Obj (wrap (SBool true) half)) (Bare (PScalar (SInt 5)))
            [Obj (wrap (SStr "yes") third)] _).
  repeat constructor.
Defined.

(** X3, witness: [Or(T(False, 1/2), T(False, 1/3), T(False, 1/5))] is
    [T(False)] with certainty factor [k + 1/5 - k * 1/5], where [k] is
    [1/2 + 1/3 - 1/2 * 1/3]. *)
Lemma Or_of_a_sequence_witness :
  Or [Obj (wrap (SBool false) half); Obj (wrap (SBool false) third);
      Obj (wrap (SBool false) fifth)]
  = Ok (Obj (wrap (SBool false)
               (half + third - half * third + fifth
                - (half + third - half * third) * fifth))).
Proof.
  refine (proj2 (proj2 (@Or_of_a_sequence Empty_set _))
            (Obj (wrap (SBool false) half)) (Obj (wrap (SBool false) third))
            [Obj (wrap (SBool false) fifth)] _).
  repeat constructor.
Defined.

(** X4, witness: [And(Stub(1/2), T(None, 1/3), T(True, 1/5))] and the same
    arguments in the order third, first, second have the same payload, and
    so have the two calls of [Or]. *)
Lemma And_Or_payload_order_independent_witness :
  same_payload
    (And [Obj (stub half); Obj (wrap SNone third);
          Obj (wrap (SBool true) fifth)])
    (And [Obj (wrap (SBool true) fifth); Obj (stub half);
          Obj (wrap SNone third)])
  /\ same_payload
       (Or [Obj (stub half); Obj (wrap SNone third);
            Obj (wrap (SBool true) fifth)])
       (Or [Obj (wrap (SBool true) fifth); Obj (stub half);
            Obj (wrap SNone third)]).
Proof.
  apply (@And_Or_payload_order_independent Empty_set _).
  - repeat constructor.
  - apply Permutation_sym.
    apply (Permutation_cons_app [Obj (stub half); Obj (wrap SNone third)] []).
    rewrite app_nil_r; apply Permutation_refl.
Defined.

(** X6, witness: [T(True, 1.0) | T(True, 0.0)] has certainty factor 1, and
    [T(True, 1.0) | T(False, 0.9)] has 0.9999999999999999. *)
Lemma certainty_in_binary64_witness :
  cf64 (mkT64 (TimeSeries := Empty_set) (PScalar (SBool true))
          (1 + 0 - 1 * 0)%float) = 1%float
  /\ cf64 (mkT64 (TimeSeries := Empty_set) (PScalar (SBool true))
             (1 + f09 - 1 * f09)%float)
     = 0x1.fffffffffffffp-1%float.
Proof.
  destruct (@certainty_in_binary64 Empty_set _
              (certain64 1) (certain64 0)) as (H & H').
  destruct H as (_ & Hor); [right; reflexivity|left; reflexivity|].
  split.
  - destruct (Hor (mkT64 (PScalar (SBool true)) (1 + 0 - 1 * 0)%float)
                eq_refl) as ([E | E] & _); [discriminate E|exact E].
  - exact (proj1 (H' (PScalar (SBool true)) (PScalar (SBool false))
                    (mkT64 (PScalar (SBool true)) (1 + f09 - 1 * f09)%float)
                    eq_refl)).
Defined.

(** X7, witness: in the library with one series, [T(5) < T(series)] raises
    [AttributeError]. *)
Lemma series_on_the_right_raises_witness :
  py_lt (Wrapped (mkT (PScalar (SInt 5)) 1)) (Wrapped (the_series 1))
  = Raise AttributeError
  /\ process_binary operator_eq (Obj (mkT (PScalar (SInt 5)) 1))
       (Obj (the_series 1))
     = Raise AttributeError.
Proof.
  destruct (@series_on_the_right_raises unit _ _ operator_eq
              (Wrapped (mkT (PScalar (SInt 5)) 1)) (the_series 1)
              eq_refl eq_refl) as (H & _ & H').
  - discriminate.
  - reflexivity.
  - split; [exact (proj1 (H' _ eq_refl))|exact H].
Defined.

(** X8, witness: [T(0, 1/2) * T(7, 1/3)] is [T(0)] by either path. *)
Lemma mult_short_circuit_and_operator_witness :
  process_binary_mult (Obj (wrap (SInt 0) half)) (Obj (wrap (SInt 7) third))
  = Ok (wrap (SInt (0 * 7)) (half * third))
  /\ process_binary_mult (Obj (wrap (SInt 0) half)) (Obj (wrap (SInt 7) third))
     = process_binary operator_mul (Obj (wrap (SInt 0) half))
         (Obj (wrap (SInt 7) third)).
Proof.
  destruct (@mult_short_circuit_and_operator Empty_set _
              (Obj (wrap (SInt 0) half)) (Obj (wrap (SInt 7) third)) 1 1)
    as (_ & H & _).
  exact (H 0%Z 7%Z eq_refl eq_refl).
Defined.

(** X9, witness: [T(1, 1/2) == T(True, 1/3)] is [T(True)], and [!=] is
    [T(False)]; [T(1, 1/2) == T(1, 1/2)] is [T(True)]. *)
Lemma eq_symmetric_ne_negates_witness :
  T_eq (wrap (SInt 1) half) (Obj (wrap (SBool true) third))
  = Ok (wrap (SBool true) (half * third))
  /\ T_ne (wrap (SInt 1) half) (Obj (wrap (SBool true) third))
     = Ok (wrap (SBool false) (half * third))
  /\ T_eq (wrap (SInt 1) half) (Obj (wrap (SInt 1) half))
     = Ok (wrap (SBool true) (half * half)).
Proof.
  destruct (@eq_symmetric_ne_negates Empty_set _
              (SInt 1) (SBool true) half third) as (_ & H).
  destruct H as (H1 & H2 & H3); try discriminate.
  refine (conj H1 (conj H2 (H3 _))).
  intros q; discriminate.
Defined.

(** X10, witness: [Not(Not(Not(T(5, 1/2))))] is [Not(T(5, 1/2))]. *)
Lemma Not_three_times_witness :
  (r1 <- Not 1 (Obj (wrap (SInt 5) half)) ;; r2 <- Not 1 r1 ;; Not 1 r2)
  = Not 1 (Obj (wrap (SInt 5) half)).
Proof.
  exact (proj1 (@Not_three_times Empty_set _ 0
                  (Obj (wrap (SInt 5) half)) eq_refl)).
Defined.

(** X11, witness: [~T(5, 1/2)] and [Not(T(5, 1/2))] are [T(False, 1/2)]. *)
Lemma invert_is_Not_when_resolved_witness :
  Not 1 (Obj (wrap (SInt 5) half))
  = (r <- T_invert (wrap (SInt 5) half) ;; Ok (Obj r))
  /\ T_invert (wrap (SInt 5) half) = Ok (wrap (SBool false) half).
Proof.
  apply (@invert_is_Not_when_resolved Empty_set _ 0 (SInt 5) half);
    discriminate.
Defined.

(** X13, witness: ["a" + T("b")] is [T("ba")]. *)
Lemma reflected_add_keeps_self_first_witness :
  py_add (Scalar (SStr "a")) (Wrapped (wrap (SStr "b") half))
  = Ok (Obj (wrap (SStr "ba") (half * 1))).
Proof.
  refine (proj1 (@reflected_add_keeps_self_first Empty_set _ _
                   "b" "a" 0 0 half _ _)); discriminate.
Defined.

(** X14, witness: Jim is 16, Lucy is 25 and female, a friend of Jim's, and
    the date is 2005-01-01, all certain: Lucy is a qualifying relative of
    Jim's, with certainty factor 1. *)
Lemma is_qualifying_relative_decides_witness :
  is_qualifying_relative sample_In 1 "Jim" "Lucy"
  = Ok (Obj (wrap (SBool true) (1 * 1 * 1 * 1 * 1))).
Proof.
  refine (proj1 (@is_qualifying_relative_decides Empty_set _ _ sample_In 0
                   "Jim" "Lucy" (Known 16%Z) (Known 25%Z) (Known "Female")
                   (Known "Friend") (Known "2005-01-01") 1 1 1 1 1
                   eq_refl eq_refl eq_refl eq_refl eq_refl _ _ _));
    discriminate.
Defined.

(** X15, witness: [T(16, 1/2) < T(18, 1/3)] is [T(True)] and
    [T(16, 1/2) >= T(18, 1/3)] is [T(False)]; [T(16) < T("18")] raises
    [TypeError]. *)
Lemma order_comparisons_witness :
  T_lt (wrap (SInt 16) half) (Obj (wrap (SInt 18) third))
  = Ok (wrap (SBool true) (half * third))
  /\ T_ge (wrap (SInt 16) half) (Obj (wrap (SInt 18) third))
     = Ok (wrap (SBool false) (half * third))
  /\ T_lt (wrap (SInt 16) half) (Obj (wrap (SStr "18") third))
     = Raise TypeError.
Proof.
  destruct (@order_comparisons Empty_set _ _ (SInt 16) (SInt 18) half third)
    as (H & _); try discriminate.
  destruct (H Datatypes.Lt eq_refl) as (H1 & H2 & _).
  destruct (@order_comparisons Empty_set _ _ (SInt 16) (SStr "18") half third)
    as (_ & H'); try discriminate.
  exact (conj H1 (conj H2 (proj1 (H' eq_refl)))).
Defined.
